(** * build-cameras.js: a shallow embedding of the static-site generator

    The script reads one JSON record per camera, sorts and groups the
    records, and renders one HTML page per record plus an index page.
    This file embeds the script function by function, then states the
    notions the specification speaks of, and proves what the specification
    claims of the rendering, or shows where the script does otherwise.

    Conventions of the embedding.
    - A parsed JSON document is a [value]; a property that is missing reads
      as [VUndef], as in JavaScript.  The members of an object are listed
      in the order of enumeration, each key once.
    - Strings are sequences of UTF-8 bytes ([string] of the Standard
      Library).  All characters the script inspects are ASCII, so byte-wise
      processing agrees with JavaScript's UTF-16 processing on well-formed
      text.
    - Numbers are integers ([Z]): years, prices and counts, in the range
      where JavaScript prints every digit.  Fractions, NaN and infinities
      are outside the model.
    - A computation that can throw returns [option]: [None] stands for
      "no result in this model", that is, the script throws a [TypeError]
      there, or its behaviour depends on something the model leaves out
      (object identity, conversion of a non-number to a number).
    - The functions of the Node runtime that the script calls
      ([path.basename], [String.prototype.localeCompare],
      [String.prototype.toLowerCase]) are the members of the class
      [Runtime]; what the sort needs of [localeCompare] is the class
      [RuntimeLaws].
    - In template text the back quote stands for the double quote; [Q]
      puts the double quotes back.  No template of the script contains a
      back quote of its own.
    - A template literal is the concatenation of its parts, in order; the
      parts that can throw are computed first, which changes nothing, as
      any failure makes the whole template fail. *)

From stdpp Require Import base option list strings gmap sorting.
From Stdlib Require Import ZArith Ascii String DecimalString Lia.

Local Open Scope string_scope.
Local Open Scope Z_scope.

(** ** Values *)

#[warnings="-register-all"]
Inductive value : Type :=
| VUndef
| VNull
| VBool (b : bool)
| VNum (n : Z)
| VStr (s : string)
| VArr (l : list value)
| VObj (l : list (string * value)).

(** ** Strings *)

Definition dquote : ascii := ascii_of_nat 34.
Definition backquote : ascii := ascii_of_nat 96.
Definition newline : string := String (ascii_of_nat 10) "".

Fixpoint map_string (f : ascii → ascii) (s : string) : string :=
  match s with
  | EmptyString => EmptyString
  | String a s' => String (f a) (map_string f s')
  end.

(** Template text is written with back quotes for double quotes. *)
Definition Q (s : string) : string :=
  map_string (λ a, if Ascii.eqb a backquote then dquote else a) s.

(** [s.replace(/c/g, r)] for a one-character pattern. *)
Fixpoint replaceAll (c : ascii) (r : string) (s : string) : string :=
  match s with
  | EmptyString => EmptyString
  | String a s' =>
      if Ascii.eqb a c then r +:+ replaceAll c r s'
      else String a (replaceAll c r s')
  end.

(** [s.includes(t)]. *)
Fixpoint includes (t s : string) : bool :=
  String.prefix t s ||
  match s with
  | EmptyString => false
  | String _ s' => includes t s'
  end.

(** Number of UTF-16 code units of a UTF-8 string: one per byte that is not
    a continuation byte, and one more for each four-byte sequence. *)
Fixpoint utf16_length (s : string) : Z :=
  match s with
  | EmptyString => 0
  | String a s' =>
      let n := Z.of_nat (nat_of_ascii a) in
      (if (n <? 128) || (192 <=? n) then 1 else 0)
      + (if 240 <=? n then 1 else 0) + utf16_length s'
  end.

Definition string_of_Z (n : Z) : string :=
  NilZero.string_of_int (Z.to_int n).

(** ** The JavaScript operations the script uses *)

(** [!!v] *)
Definition truthy (v : value) : bool :=
  match v with
  | VUndef | VNull => false
  | VBool b => b
  | VNum n => negb (n =? 0)
  | VStr s => negb (String.eqb s "")
  | VArr _ | VObj _ => true
  end.

Fixpoint assoc (k : string) (l : list (string * value)) : option value :=
  match l with
  | [] => None
  | (k', v) :: l' => if String.eqb k k' then Some v else assoc k l'
  end.

(** [v.k] and [v[k]], for the property names the script reads: none of them
    is an array index or the name of a method.  Reading a property of
    [undefined] or [null] throws. *)
Definition get (v : value) (k : string) : option value :=
  match v with
  | VUndef | VNull => None
  | VObj l => Some (default VUndef (assoc k l))
  | VArr l =>
      Some (if String.eqb k "length" then VNum (Z.of_nat (List.length l)) else VUndef)
  | VStr s =>
      Some (if String.eqb k "length" then VNum (utf16_length s) else VUndef)
  | VBool _ | VNum _ => Some VUndef
  end.

(** [v?.k] *)
Definition opt_get (v : value) (k : string) : value :=
  match v with
  | VUndef | VNull => VUndef
  | _ => default VUndef (get v k)
  end.

(** [a || b], with both operands already evaluated. *)
Definition or_else (a b : value) : value := if truthy a then a else b.

(** [String(v)], also the conversion applied by [${v}] in a template.  The
    model agrees with the script on the values of the data model: a number
    is printed with all its digits, as JavaScript does for the safe
    integers (up to 2^53 - 1 in absolute value; larger numbers are rounded,
    and from 1e21 on printed with an exponent), and an object prints as
    [[object Object]], as JavaScript does unless the object has a member
    [toString] of its own, in which case the conversion throws. *)
Fixpoint toString (v : value) : string :=
  match v with
  | VUndef => "undefined"
  | VNull => "null"
  | VBool true => "true"
  | VBool false => "false"
  | VNum n => string_of_Z n
  | VStr s => s
  | VArr l =>
      String.concat ","
        (List.map (λ x, match x with
                        | VUndef | VNull => ""
                        | _ => toString x
                        end) l)
  | VObj _ => "[object Object]"
  end.

(** [a.join(sep)] on an array. *)
Definition join (sep : string) (l : list value) : string :=
  String.concat sep
    (List.map (λ x, match x with
                    | VUndef | VNull => ""
                    | _ => toString x
                    end) l).

(** [a === b].  Two arrays or two objects are compared by identity, which
    the model does not track. *)
Definition strict_eq (a b : value) : option bool :=
  match a, b with
  | VUndef, VUndef | VNull, VNull => Some true
  | VBool x, VBool y => Some (Bool.eqb x y)
  | VNum x, VNum y => Some (x =? y)
  | VStr x, VStr y => Some (String.eqb x y)
  | VArr _, VArr _ | VObj _, VObj _ => None
  | _, _ => Some false
  end.

(** [v > 0], applied to a [length].  Strings, arrays and objects would
    first be converted to a number (the string '0' compares as 0), which the model leaves out: [None] is then "no result in this
    model", not an error of the script.  The length of an array or of a
    string is a number. *)
Definition gt_zero (v : value) : option bool :=
  match v with
  | VUndef | VNull => Some false
  | VBool b => Some b
  | VNum n => Some (0 <? n)
  | VStr _ | VArr _ | VObj _ => None
  end.

(** ** [escHtml] *)

Definition escape (s : string) : string :=
  replaceAll dquote "&quot;"
    (replaceAll ">" "&gt;" (replaceAll "<" "&lt;" (replaceAll "&" "&amp;" s))).

Definition escHtml (s : value) : option string :=
  if negb (truthy s) then Some ""
  else match s with
       | VStr s => Some (escape s)
       | _ => None
       end.

(** ** Helpers for code that can throw *)

Fixpoint foldM {A B} (f : B → A → option B) (b : B) (l : list A) : option B :=
  match l with
  | [] => Some b
  | a :: l' => b' ← f b a; foldM f b' l'
  end.

Fixpoint filterM {A} (p : A → option bool) (l : list A) : option (list A) :=
  match l with
  | [] => Some []
  | a :: l' =>
      keep ← p a; rest ← filterM p l';
      Some (if keep : bool then a :: rest else rest)
  end.

(** An array method ([map], [join]) called on [v]: only an array has it. *)
Definition as_array (v : value) : option (list value) :=
  match v with
  | VArr l => Some l
  | _ => None
  end.

(** ** The Node runtime *)

Class Runtime := {
  basename : string → string;
  localeCompare : string → string → Z;
  toLowerCase : string → string
}.

(** The laws of a consistent comparison function, which [Array.prototype.sort]
    requires for its result to be defined. *)
Class RuntimeLaws (R : Runtime) : Prop := {
  localeCompare_antisym a b : Z.sgn (localeCompare a b) = - Z.sgn (localeCompare b a);
  localeCompare_trans a b c :
    localeCompare a b <= 0 → localeCompare b c <= 0 → localeCompare a c <= 0
}.

(** [path.basename(v)] and [v.toLowerCase()] throw unless [v] is a string. *)
Definition path_basename `{Runtime} (v : value) : option string :=
  match v with
  | VStr s => Some (basename s)
  | _ => None
  end.

Definition lower `{Runtime} (v : value) : option string :=
  match v with
  | VStr s => Some (toLowerCase s)
  | _ => None
  end.

(** ** [formatPrice] *)

Definition conditions : list string :=
  ["poor"; "average"; "good"; "excellent"; "mint"].
Definition labels : list string :=
  ["Poor"; "Average"; "Good"; "Excellent"; "Mint"].

(** One turn of the loop over the conditions: [cl] is
    [(conditions[i], labels[i])]. *)
Definition priceRow (pricing : value) (rows : string) (cl : string * string)
  : option string :=
  p ← get pricing cl.1;
  if truthy p then
    min ← get p "min";
    max ← get p "max";
    Some (rows +:+ "<tr><td>" +:+ cl.2 +:+ "</td><td>$" +:+ toString min
          +:+ " – $" +:+ toString max +:+ "</td></tr>")
  else Some rows.

(** The line under the table: [pricing.source ? ... : '']. *)
Definition priceSource (pricing : value) : option string :=
  source ← get pricing "source";
  if truthy source
  then e ← escHtml source;
       Some (Q "<p class=`price-source`>Source: " +:+ e +:+ "</p>")
  else Some "".

Definition formatPrice (pricing : value) : option string :=
  if negb (truthy pricing) then Some "" else
  rows ← foldM (priceRow pricing) "" (zip conditions labels);
  if String.eqb rows "" then Some "" else
  src ← priceSource pricing;
  Some (Q "
    <div class=`pricing-table`>
      <h3>Current Market Prices (USD)</h3>
      <table>
        <thead><tr><th scope=`col`>Condition</th><th scope=`col`>Price Range</th></tr></thead>
        <tbody>" +:+ rows +:+ "</tbody>
      </table>
      " +:+ src +:+ "
    </div>").

(** ** [specsTable] *)

Definition fields : list (string * string) :=
  [ ("takingLens", "Taking Lens");
    ("viewingLens", "Viewing Lens");
    ("elements", "Lens Elements");
    ("shutter", "Shutter");
    ("shutterSpeeds", "Shutter Speeds");
    ("meter", "Light Meter");
    ("filterMount", "Filter Mount");
    ("focusing", "Focusing");
    ("weight", "Weight") ].

Definition specRow (specs : value) (rows : string) (kl : string * string)
  : option string :=
  v ← get specs kl.1;
  if truthy v then
    e ← escHtml (VStr (toString v));
    Some (rows +:+ "<tr><td>" +:+ kl.2 +:+ "</td><td>" +:+ e +:+ "</td></tr>")
  else Some rows.

Definition specsTable (specs : value) : option string :=
  if negb (truthy specs) then Some "" else
  rows ← foldM (specRow specs) "" fields;
  Some (Q "<table class=`specs-table` role=`table` aria-label=`Camera specifications`><tbody>"
        +:+ rows +:+ "</tbody></table>").

(** ** The grouping object [brands] *)

(** [brands] starts as [{}], so a look-up under one of these names finds a
    member inherited from [Object.prototype], not a list of records. *)
Definition object_prototype_keys : list string :=
  [ "constructor"; "__proto__"; "hasOwnProperty"; "isPrototypeOf";
    "propertyIsEnumerable"; "toLocaleString"; "toString"; "valueOf";
    "__defineGetter__"; "__defineSetter__"; "__lookupGetter__";
    "__lookupSetter__" ].

(** [brands[k] || []], as the receiver of an array method. *)
Definition brands_lookup (brands : gmap string (list value)) (k : string)
  : option (list value) :=
  if bool_decide (k ∈ object_prototype_keys) then None
  else Some (default [] (brands !! k)).

(** ** [relatedCameras] *)

Definition siblings (brands : gmap string (list value)) (cam : value)
  : option (list value) :=
  brand ← get cam "brand";
  group ← brands_lookup brands (toString brand);
  filterM (λ c, cid ← get c "id"; id ← get cam "id";
                negb <$> strict_eq cid id) group.

Definition relatedLink (c : value) : option string :=
  id ← get c "id";
  fullName ← get c "fullName";
  e ← escHtml fullName;
  Some (Q "<a href=`/cameras/" +:+ toString id +:+ Q ".html`>" +:+ e +:+ "</a>").

Definition relatedCameras (brands : gmap string (list value)) (cam : value)
  : option string :=
  sibs ← siblings brands cam;
  if (List.length sibs =? 0)%nat then Some "" else
  links ← mapM relatedLink sibs;
  brand ← get cam "brand";
  ebrand ← escHtml brand;
  Some (Q "<div class=`related`><h3>More " +:+ ebrand +:+ " TLR Cameras</h3><p>"
        +:+ String.concat ", " links +:+ "</p></div>").

(** ** [articlesList], [manualsList], [galleriesList] *)

Definition articleItem (a : value) : option string :=
  url ← get a "url"; eurl ← escHtml url;
  title ← get a "title"; etitle ← escHtml title;
  source ← get a "source"; esource ← escHtml source;
  Some (Q "<li><a href=`" +:+ eurl +:+ Q "` target=`_blank` rel=`noopener`>"
        +:+ etitle +:+ Q "</a> <span class=`source`>— " +:+ esource
        +:+ "</span></li>").

(** The guard [!list || list.length === 0] shared by the three lists. *)
Definition no_entries (list : value) : option bool :=
  if negb (truthy list) then Some true else
  len ← get list "length";
  Some (match len with VNum 0 => true | _ => false end).

Definition articlesList (articles : value) : option string :=
  none ← no_entries articles;
  if none : bool then Some "" else
  l ← as_array articles;
  items ← mapM articleItem l;
  Some (Q "<div class=`resources`><h3>Articles &amp; Reviews</h3><ul>"
        +:+ String.concat newline items +:+ "</ul></div>").

Definition manualItem (m : value) : option string :=
  url ← get m "url"; eurl ← escHtml url;
  source ← get m "source"; esource ← escHtml source;
  Some (Q "<li><a href=`" +:+ eurl +:+ Q "` target=`_blank` rel=`noopener`>"
        +:+ esource +:+ "</a></li>").

Definition manualsList (manuals : value) : option string :=
  none ← no_entries manuals;
  if none : bool then Some "" else
  l ← as_array manuals;
  items ← mapM manualItem l;
  Some (Q "<div class=`resources`><h3>Manuals &amp; Documentation</h3><ul>"
        +:+ String.concat newline items +:+ "</ul></div>").

(** [g.url && g.url.includes('google.com')]: the value is only tested for
    truth, so the model keeps its truth value.  A string searches for the
    substring and an array for the element; nothing else has [includes]. *)
Definition isGoogle (g : value) : option bool :=
  url ← get g "url";
  if negb (truthy url) then Some false else
  match url with
  | VStr s => Some (includes "google.com" s)
  | VArr l =>
      Some (existsb (λ x, match x with
                          | VStr s => String.eqb s "google.com"
                          | _ => false
                          end) l)
  | _ => None
  end.

Definition galleryRel (g : value) : option string :=
  google ← isGoogle g;
  Some (if google : bool then "noopener nofollow" else "noopener").

Definition galleryItem (g : value) : option string :=
  rel ← galleryRel g;
  url ← get g "url"; eurl ← escHtml url;
  label ← get g "label"; elabel ← escHtml label;
  Some (Q "<li><a href=`" +:+ eurl +:+ Q "` target=`_blank` rel=`" +:+ rel
        +:+ Q "`>" +:+ elabel +:+ "</a></li>").

Definition galleriesList (galleries : value) : option string :=
  none ← no_entries galleries;
  if none : bool then Some "" else
  l ← as_array galleries;
  items ← mapM galleryItem l;
  Some (Q "<div class=`resources`><h3>Photo Galleries</h3><ul>"
        +:+ String.concat newline items +:+ "</ul></div>").

(** ** [imageAttribution] *)

Definition imageAttribution (attr : value) : option string :=
  if negb (truthy attr) then Some "" else
  author ← get attr "author"; eauthor ← escHtml author;
  licenseUrl ← get attr "licenseUrl"; elicenseUrl ← escHtml licenseUrl;
  license ← get attr "license"; elicense ← escHtml license;
  sourceUrl ← get attr "sourceUrl"; esourceUrl ← escHtml sourceUrl;
  Some (Q "<p class=`attribution`>Photo: " +:+ eauthor +:+ Q " · <a href=`"
        +:+ elicenseUrl +:+ Q "` target=`_blank` rel=`noopener`>" +:+ elicense
        +:+ Q "</a> · <a href=`" +:+ esourceUrl
        +:+ Q "` target=`_blank` rel=`noopener`>Source</a></p>").

(** ** [JSON.stringify] *)

Definition hex_digit (n : nat) : ascii :=
  ascii_of_nat (if (n <? 10)%nat then 48 + n else 87 + n)%nat.

(** [QuoteJSONString], one character at a time. *)
Definition json_escape (a : ascii) : string :=
  let n := nat_of_ascii a in
  if (n =? 34)%nat then String "\" (String dquote "")
  else if (n =? 92)%nat then "\\"
  else if (n =? 8)%nat then "\b"
  else if (n =? 9)%nat then "\t"
  else if (n =? 10)%nat then "\n"
  else if (n =? 12)%nat then "\f"
  else if (n =? 13)%nat then "\r"
  else if (n <? 32)%nat then
    "\u00" +:+ String (hex_digit (n / 16)) (String (hex_digit (n mod 16)) "")
  else String a "".

Fixpoint json_escape_string (s : string) : string :=
  match s with
  | EmptyString => EmptyString
  | String a s' => json_escape a +:+ json_escape_string s'
  end.

Definition json_quote (s : string) : string :=
  String dquote (json_escape_string s) +:+ String dquote "".

(** [JSON.stringify(v)]; [None] is the result [undefined], not an error.  A
    member of an object whose value is [undefined] is left out, and an
    element of an array that is [undefined] is written [null]. *)
Fixpoint stringify (v : value) : option string :=
  match v with
  | VUndef => None
  | VNull => Some "null"
  | VBool true => Some "true"
  | VBool false => Some "false"
  | VNum n => Some (string_of_Z n)
  | VStr s => Some (json_quote s)
  | VArr l =>
      Some ("[" +:+ String.concat "," (List.map (λ x, default "null" (stringify x)) l)
            +:+ "]")
  | VObj l =>
      let fix members (l : list (string * value)) : list string :=
        match l with
        | [] => []
        | (k, x) :: l' =>
            match stringify x with
            | Some s => (json_quote k +:+ ":" +:+ s) :: members l'
            | None => members l'
            end
        end in
      Some ("{" +:+ String.concat "," (members l) +:+ "}")
  end.

(** ** [jsonLd] *)

Section Renderer.
Context `{R : Runtime}.

(** The [offers] member, present when [cam.pricing && cam.pricing.average]. *)
Definition offers (pricing : value) : option (list (string * value)) :=
  if negb (truthy pricing) then Some [] else
  average ← get pricing "average";
  if negb (truthy average) then Some [] else
  poor ← get pricing "poor";
  mint ← get pricing "mint";
  excellent ← get pricing "excellent";
  average_min ← get average "min";
  average_max ← get average "max";
  Some [ ("offers", VObj
      [ ("@type", VStr "AggregateOffer");
        ("priceCurrency", VStr "USD");
        ("lowPrice", or_else (opt_get poor "min") average_min);
        ("highPrice", or_else (opt_get mint "max")
                        (or_else (opt_get excellent "max") average_max));
        ("offerCount", VNum 1) ]) ].

(** The object [data] that [jsonLd] serialises. *)
Definition jsonLd_data (cam : value) : option value :=
  fullName ← get cam "fullName";
  tagline ← get cam "tagline";
  brand ← get cam "brand";
  localImage ← get cam "localImage";
  image ← (if truthy localImage
           then f ← path_basename localImage;
                Some (VStr ("https://metergeist.com/images/" +:+ f))
           else Some VUndef);
  pricing ← get cam "pricing";
  o ← offers pricing;
  Some (VObj (
    [ ("@context", VStr "https://schema.org");
      ("@type", VStr "Product");
      ("name", fullName);
      ("description",
        or_else tagline (VStr (toString fullName +:+ " twin-lens reflex camera")));
      ("brand", VObj [ ("@type", VStr "Brand"); ("name", brand) ]);
      ("category", VStr "Twin-Lens Reflex Camera");
      ("image", image) ] ++ o)).

Definition jsonLd (cam : value) : option string :=
  data ← jsonLd_data cam;
  Some (Q "<script type=`application/ld+json`>"
        +:+ toString (default VUndef (VStr <$> stringify data)) +:+ "</script>").

End Renderer.

(** ** The page of one camera *)

Section Pages.
Context `{R : Runtime}.

(** [\s] of a regular expression, on UTF-8 text: the ASCII white space, the
    no-break space, U+1680, U+2000 to U+200A, the line and paragraph
    separators, U+202F, U+205F, U+3000 and U+FEFF. *)
Fixpoint all_whitespace (s : string) : bool :=
  match s with
  | EmptyString => true
  | String a s1 =>
      let n := nat_of_ascii a in
      if bool_decide (n ∈ [9; 10; 11; 12; 13; 32]%nat) then all_whitespace s1
      else
        match s1 with
        | String b s2 =>
            let m := nat_of_ascii b in
            if ((n =? 194) && (m =? 160))%nat then all_whitespace s2
            else
              match s2 with
              | String c s3 =>
                  let k := nat_of_ascii c in
                  if (((n =? 225) && (m =? 154) && (k =? 128))
                      || ((n =? 226) && (m =? 128)
                          && (((128 <=? k) && (k <=? 138))
                              || bool_decide (k ∈ [168; 169; 175])))
                      || ((n =? 226) && (m =? 129) && (k =? 159))
                      || ((n =? 227) && (m =? 128) && (k =? 128))
                      || ((n =? 239) && (m =? 187) && (k =? 191)))%nat
                  then all_whitespace s3
                  else false
              | EmptyString => false
              end
        | EmptyString => false
        end
  end.

(** [s.replace(/\.\s*$/, '')]: the match starts at the first full stop that
    only white space follows. *)
Fixpoint strip_final_stop (s : string) : string :=
  match s with
  | EmptyString => EmptyString
  | String a s' =>
      if Ascii.eqb a "." && all_whitespace s' then EmptyString
      else String a (strip_final_stop s')
  end.

Definition years (cam : value) : option string :=
  yearEnd ← get cam "yearEnd";
  yearStart ← get cam "yearStart";
  Some (if truthy yearEnd
        then toString yearStart +:+ "–" +:+ toString yearEnd
        else toString yearStart).

Definition taglineClean (cam : value) : option string :=
  tagline ← get cam "tagline";
  match or_else tagline (VStr "Twin-lens reflex camera") with
  | VStr s => Some (strip_final_stop s)
  | _ => None
  end.

Definition metaDesc (cam : value) : option string :=
  ys ← years cam;
  clean ← taglineClean cam;
  fullName ← get cam "fullName";
  Some (toString fullName +:+ " (" +:+ ys +:+ ") — " +:+ clean
        +:+ ". Specs, pricing, history, and resources.").

(** [imgFile] is a string or [null]. *)
Definition imgFile (cam : value) : option value :=
  localImage ← get cam "localImage";
  if truthy localImage then VStr <$> path_basename localImage else Some VNull.

Definition listItem (f : value) : option string :=
  e ← escHtml f; Some ("<li>" +:+ e +:+ "</li>").

Definition featuresHtml (cam : value) : option string :=
  features ← get cam "features";
  if negb (truthy features) then Some "" else
  len ← get features "length";
  positive ← gt_zero len;
  if negb positive then Some "" else
  l ← as_array features;
  items ← mapM listItem l;
  Some (Q "<ul class=`features-list`>" +:+ String.concat "" items +:+ "</ul>").

Definition innovationsHtml (cam : value) : option string :=
  innovations ← get cam "innovations";
  if negb (truthy innovations) then Some "" else
  len ← get innovations "length";
  positive ← gt_zero len;
  if negb positive then Some "" else
  l ← as_array innovations;
  items ← mapM listItem l;
  Some (Q "<div class=`innovations`><h3>Innovations</h3><ul>"
        +:+ String.concat "" items +:+ "</ul></div>").

Definition famousUsersHtml (cam : value) : option string :=
  famousUsers ← get cam "famousUsers";
  if truthy famousUsers then
    e ← escHtml famousUsers;
    Some (Q "<div class=`famous-users`><h3>Notable Photographers</h3><p>" +:+ e
          +:+ "</p></div>")
  else Some "".

Definition popCultureHtml (cam : value) : option string :=
  popCulture ← get cam "popCulture";
  if truthy popCulture then
    e ← escHtml popCulture;
    Some (Q "<div class=`pop-culture`><h3>Cultural Significance</h3><p>" +:+ e
          +:+ "</p></div>")
  else Some "".

Definition notesHtml (cam : value) : option string :=
  notes ← get cam "notes";
  if truthy notes then
    e ← escHtml notes;
    Some (Q "<div class=`collector-notes`><h3>Collector Notes</h3><p>" +:+ e
          +:+ "</p></div>")
  else Some "".

Definition ebayHtml (cam : value) : option string :=
  ebayUrl ← get cam "ebayUrl";
  if truthy ebayUrl then
    eurl ← escHtml ebayUrl;
    fullName ← get cam "fullName";
    ename ← escHtml fullName;
    Some (Q "<p class=`shop-link`><a href=`" +:+ eurl
          +:+ Q "` target=`_blank` rel=`noopener nofollow sponsored`>Shop for "
          +:+ ename +:+ " on eBay</a></p>")
  else Some "".

(** The conditional fragments written inline in the page template. *)

Definition ogImage (cam : value) : option string :=
  img ← imgFile cam;
  Some (if truthy img
        then Q "<meta property=`og:image` content=`https://metergeist.com/images/"
             +:+ toString img +:+ Q "`>"
        else "").

Definition taglineHtml (cam : value) : option string :=
  tagline ← get cam "tagline";
  if truthy tagline then
    e ← escHtml tagline; Some (Q "<p class=`cam-tagline`>" +:+ e +:+ "</p>")
  else Some "".

Definition originHtml (cam : value) : option string :=
  madeIn ← get cam "madeIn";
  if truthy madeIn then
    e ← escHtml madeIn;
    Some (Q "<span class=`cam-origin`>Made in " +:+ e +:+ "</span>")
  else Some "".

Definition imageHtml (cam : value) : option string :=
  img ← imgFile cam;
  if truthy img then
    fullName ← get cam "fullName";
    ename ← escHtml fullName;
    attr ← get cam "imageAttribution";
    attribution ← imageAttribution attr;
    Some (Q "
      <div class=`cam-image`>
        <img src=`/images/" +:+ toString img +:+ Q "` alt=`" +:+ ename
          +:+ Q " twin-lens reflex camera` loading=`lazy`>
        " +:+ attribution +:+ "
      </div>")
  else Some "".

Definition historyHtml (cam : value) : option string :=
  history ← get cam "history";
  if truthy history then
    e ← escHtml history;
    Some (Q "<div class=`cam-history`><h2>History</h2><p>" +:+ e +:+ "</p></div>")
  else Some "".

(** The film stocks of the meta line: [(cam.film || ['120']).join('/')]. *)
Definition filmText (cam : value) : option string :=
  film ← get cam "film";
  l ← as_array (or_else film (VArr [VStr "120"]));
  escHtml (VStr (join "/" l)).

(** The meta line of the page: years, format, film and origin. *)
Definition camMeta (cam : value) : option string :=
  ys ← years cam;
  format ← get cam "format";
  eformat ← escHtml format;
  efilm ← filmText cam;
  origin ← originHtml cam;
  Some (String.concat "" [
      Q "<div class=`cam-meta`>
      <span class=`cam-years`>";
      ys;
      Q "</span>
      <span class=`cam-format`>";
      eformat;
      " on ";
      efilm;
      " film</span>
      ";
      origin;
      "
    </div>" ]).

(** The text of the page, in the order of the template. *)
Definition cameraPage (brands : gmap string (list value)) (cam : value)
  : option string :=
  desc0 ← metaDesc cam;
  features ← featuresHtml cam;
  innovations ← innovationsHtml cam;
  famousUsers ← famousUsersHtml cam;
  popCulture ← popCultureHtml cam;
  notes ← notesHtml cam;
  ebay ← ebayHtml cam;
  fullName ← get cam "fullName";
  title ← escHtml fullName;
  desc ← escHtml (VStr desc0);
  id ← get cam "id";
  ogImage ← ogImage cam;
  ld ← jsonLd cam;
  brand ← get cam "brand";
  anchor ← lower brand;
  ebrand ← escHtml brand;
  taglineP ← taglineHtml cam;
  meta ← camMeta cam;
  image ← imageHtml cam;
  specs0 ← get cam "specs";
  specs ← specsTable specs0;
  history ← historyHtml cam;
  pricing ← get cam "pricing";
  price ← formatPrice pricing;
  articles0 ← get cam "articles";
  articles ← articlesList articles0;
  manuals0 ← get cam "manuals";
  manuals ← manualsList manuals0;
  galleries0 ← get cam "galleries";
  galleries ← galleriesList galleries0;
  related ← relatedCameras brands cam;
  Some (String.concat "" [
      Q "<!DOCTYPE html>
<html lang=`en`>
<head>
  <meta charset=`UTF-8`>
  <meta name=`viewport` content=`width=device-width, initial-scale=1.0`>
  <title>";
      title;
      Q " — TLR Camera Guide | metergeist</title>
  <meta name=`description` content=`";
      desc;
      Q "`>
  <meta property=`og:title` content=`";
      title;
      Q " — TLR Camera Guide`>
  <meta property=`og:description` content=`";
      desc;
      Q "`>
  <meta property=`og:type` content=`article`>
  <meta property=`og:url` content=`https://metergeist.com/cameras/";
      toString id;
      Q ".html`>
  ";
      ogImage;
      Q "
  <link rel=`stylesheet` href=`/style.css`>
  <link rel=`stylesheet` href=`/cameras/cameras.css`>
  <link rel=`icon` href=`/icon.png` type=`image/png`>
  <link rel=`canonical` href=`https://metergeist.com/cameras/";
      toString id;
      Q ".html`>
  ";
      ld;
      Q "
</head>
<body>
  <a href=`#main` class=`skip-link`>Skip to content</a>
  <nav aria-label=`Main navigation`>
    <a href=`/` class=`logo`>
      <img src=`/icon.png` alt=`metergeist icon`>
      <span>metergeist</span>
    </a>
    <div class=`links`>
      <a href=`/cameras/`>TLR Guide</a>
      <a href=`/privacy.html`>Privacy</a>
      <a href=`/support.html`>Support</a>
    </div>
  </nav>

  <main id=`main`>
  <div class=`content camera-page`>
    <p class=`breadcrumb`><a href=`/cameras/`>TLR Camera Guide</a> &rsaquo; <a href=`/cameras/#";
      anchor;
      Q "`>";
      ebrand;
      "</a> &rsaquo; ";
      title;
      "</p>

    <h1>";
      title;
      "</h1>
    ";
      taglineP;
      "

    ";
      meta;
      Q "

    <div class=`cam-layout`>
      ";
      image;
      Q "

      <div class=`cam-details`>
        <h2>Specifications</h2>
        ";
      specs;
      "
        ";
      features;
      "
      </div>
    </div>

    ";
      history;
      "

    ";
      famousUsers;
      "
    ";
      popCulture;
      "
    ";
      innovations;
      "
    ";
      notes;
      "

    ";
      price;
      "
    ";
      ebay;
      "

    ";
      articles;
      "
    ";
      manuals;
      "
    ";
      galleries;
      "

    ";
      related;
      Q "

    <div class=`app-cta`>
      <h3>Shoot with your ";
      title;
      Q "</h3>
      <p><a href=`/`>metergeist</a> is a free <a href=`/`>light meter app</a> and <a href=`/`>film roll tracker</a> built for <a href=`/cameras/`>TLR</a> and medium format photographers. Meter light, load film, track every frame.</p>
    </div>
  </div>
  </main>

  <footer>
    &copy; 2026 metergeist
    <div class=`links`>
      <a href=`/cameras/`>TLR Guide</a>
      <a href=`/privacy.html`>Privacy</a>
      <a href=`/support.html`>Support</a>
    </div>
  </footer>
</body>
</html>" ]).

(** ** The index page *)

Definition brandOrder : list string := ["Rollei"; "Yashica"; "Mamiya"; "Minolta"].

Definition card (cam : value) : option string :=
  img0 ← imgFile cam;
  ys ← years cam;
  pricing ← get cam "pricing";
  let average := opt_get pricing "average" in
  priceRange ← (if truthy average
                then min ← get average "min";
                     max ← get average "max";
                     Some ("$" +:+ toString min +:+ "–$" +:+ toString max)
                else Some "");
  id ← get cam "id";
  fullName ← get cam "fullName";
  title ← escHtml fullName;
  let img := if truthy img0
             then Q "<img src=`/images/" +:+ toString img0 +:+ Q "` alt=`" +:+ title
                  +:+ Q " TLR camera` loading=`lazy`>"
             else "" in
  let price := if negb (String.eqb priceRange "")
               then Q "<span class=`card-price`>" +:+ priceRange +:+ " avg</span>"
               else "" in
  Some (String.concat "" [
      Q "
      <a href=`/cameras/";
      toString id;
      Q ".html` class=`camera-card`>
        ";
      img;
      Q "
        <div class=`card-info`>
          <h3>";
      title;
      Q "</h3>
          <span class=`card-years`>";
      ys;
      "</span>
          ";
      price;
      "
        </div>
      </a>" ]).

Definition brandSection (brands : gmap string (list value)) (brand : string)
  : option string :=
  cams ← brands_lookup brands brand;
  cards ← mapM card cams;
  ebrand ← escHtml (VStr brand);
  Some (String.concat "" [
      Q "
    <div class=`brand-section` id=`";
      toLowerCase brand;
      Q "`>
      <h2>";
      ebrand;
      Q " TLR Cameras</h2>
      <div class=`camera-grid`>";
      String.concat newline cards;
      "</div>
    </div>" ]).

Definition brandSections (brands : gmap string (list value)) : option string :=
  sections ← mapM (brandSection brands) brandOrder;
  Some (String.concat newline sections).

Definition indexHtml (count : Z) (brandSections : string) : string :=
  String.concat "" [
      Q "<!DOCTYPE html>
<html lang=`en`>
<head>
  <meta charset=`UTF-8`>
  <meta name=`viewport` content=`width=device-width, initial-scale=1.0`>
  <title>TLR Camera Guide — Twin Lens Reflex Cameras | metergeist</title>
  <meta name=`description` content=`Complete guide to 48 twin-lens reflex (TLR) cameras. Specs, history, pricing, and resources for Rolleiflex, Rolleicord, Yashica, Mamiya, and Minolta TLR cameras.`>
  <meta property=`og:title` content=`TLR Camera Guide — Twin Lens Reflex Cameras`>
  <meta property=`og:description` content=`Complete guide to 48 TLR cameras. Specs, history, pricing, and resources for Rolleiflex, Yashica, Mamiya, and Minolta.`>
  <meta property=`og:type` content=`website`>
  <meta property=`og:url` content=`https://metergeist.com/cameras/`>
  <link rel=`stylesheet` href=`/style.css`>
  <link rel=`stylesheet` href=`/cameras/cameras.css`>
  <link rel=`icon` href=`/icon.png` type=`image/png`>
  <link rel=`canonical` href=`https://metergeist.com/cameras/`>
  <script type=`application/ld+json`>
  {
    `@context`: `https://schema.org`,
    `@type`: `CollectionPage`,
    `name`: `TLR Camera Guide`,
    `description`: `Complete guide to 48 twin-lens reflex cameras from Rolleiflex, Yashica, Mamiya, and Minolta.`,
    `url`: `https://metergeist.com/cameras/`,
    `numberOfItems`: ";
      string_of_Z count;
      Q "
  }
  </script>
</head>
<body>
  <a href=`#main` class=`skip-link`>Skip to content</a>
  <nav aria-label=`Main navigation`>
    <a href=`/` class=`logo`>
      <img src=`/icon.png` alt=`metergeist icon`>
      <span>metergeist</span>
    </a>
    <div class=`links`>
      <a href=`/cameras/`>TLR Guide</a>
      <a href=`/privacy.html`>Privacy</a>
      <a href=`/support.html`>Support</a>
    </div>
  </nav>

  <main id=`main`>
  <div class=`content`>
    <h1>TLR Camera Guide</h1>
    <p class=`guide-intro`>A comprehensive guide to <strong>";
      string_of_Z count;
      Q " twin-lens reflex cameras</strong> spanning 1928 to 1986. Explore specs, history, current market prices, manuals, and sample photos for every major TLR from <a href=`#rollei`>Rolleiflex</a>, <a href=`#yashica`>Yashica</a>, <a href=`#mamiya`>Mamiya</a>, and <a href=`#minolta`>Minolta</a>.</p>

    <p class=`guide-intro`>Whether you're buying your first medium format camera or researching a specific model, this guide covers every TLR from the affordable <a href=`/cameras/yashica-a.html`>Yashica-A</a> to the legendary <a href=`/cameras/rolleiflex-28f.html`>Rolleiflex 2.8F</a>.</p>

    <div class=`brand-nav`>
      <a href=`#rollei`>Rolleiflex &amp; Rolleicord</a>
      <a href=`#yashica`>Yashica</a>
      <a href=`#mamiya`>Mamiya</a>
      <a href=`#minolta`>Minolta</a>
    </div>

    ";
      brandSections;
      Q "

    <div class=`app-cta`>
      <h2>Meter light for your TLR</h2>
      <p><a href=`/`>metergeist</a> is a free <a href=`/`>light meter app for film photography</a> built for <a href=`/cameras/`>TLR camera</a> and medium format shooters. Real-time metering, film roll tracking, and reference photos — all on your iPhone.</p>
    </div>
  </div>
  </main>

  <footer>
    &copy; 2026 metergeist
    <div class=`links`>
      <a href=`/cameras/`>TLR Guide</a>
      <a href=`/privacy.html`>Privacy</a>
      <a href=`/support.html`>Support</a>
    </div>
  </footer>
</body>
</html>" ].

(** ** Loading: sort, then group by brand *)

(** The comparison function of the sort: brand, then first year.  The
    receiver of [localeCompare] must be a string and its argument is
    converted to one; the years are subtracted as numbers.  A first year
    that is not a number would be converted to one (a missing year gives
    NaN, which the sort reads as 0): the model leaves the conversion out
    and [None] is then "no result in this model".  On records whose brand
    is a string and whose first year is a number the function is the
    script's. *)
Definition compareFn (a b : value) : option Z :=
  abrand ← get a "brand";
  bbrand ← get b "brand";
  match abrand with
  | VStr s =>
      let c := localeCompare s (toString bbrand) in
      if c =? 0 then
        ayear ← get a "yearStart";
        byear ← get b "yearStart";
        match ayear, byear with
        | VNum x, VNum y => Some (x - y)
        | _, _ => None
        end
      else Some c
  | _ => None
  end.

(** [Array.prototype.sort] is stable; with a consistent comparison function
    its result is the one stable ordering, computed here by insertion.  An
    element goes in front of the first element it does not exceed, so that
    it stays in front of its equals, which followed it in the input.  Which
    pairs the engine compares, and in which order of the two arguments, is
    left to the implementation: on records for which the comparison
    function has a result whatever the pair (a string brand, a numeric
    first year) the model returns the array the script gets, and elsewhere
    it is no authority on whether the script throws. *)
Fixpoint insert (x : value) (l : list value) : option (list value) :=
  match l with
  | [] => Some [x]
  | y :: l' =>
      c ← compareFn x y;
      if c <=? 0 then Some (x :: y :: l')
      else r ← insert x l'; Some (y :: r)
  end.

Fixpoint sort (l : list value) : option (list value) :=
  match l with
  | [] => Some []
  | x :: l' => s ← sort l'; insert x s
  end.

(** One turn of the grouping loop: [brands[cam.brand].push(cam)], after the
    list was created if it was missing. *)
Definition group_step (brands : gmap string (list value)) (cam : value)
  : option (gmap string (list value)) :=
  brand ← get cam "brand";
  cams ← brands_lookup brands (toString brand);
  Some (<[toString brand := (cams ++ [cam])%list]> brands).

Definition group (cameras : list value) : option (gmap string (list value)) :=
  foldM group_step ∅ cameras.

(** ** The whole run *)

Record output := {
  pages : list (string * string);   (* file name under the output directory, text *)
  indexPage : string                (* text of index.html *)
}.

Definition writePage (brands : gmap string (list value)) (cam : value)
  : option (string * string) :=
  html ← cameraPage brands cam;
  id ← get cam "id";
  Some (toString id +:+ ".html", html).

Definition build (files : list value) : option output :=
  cameras ← sort files;
  brands ← group cameras;
  pages ← mapM (writePage brands) cameras;
  sections ← brandSections brands;
  Some {| pages := pages;
          indexPage := indexHtml (Z.of_nat (List.length cameras)) sections |}.

End Pages.

(** ** Reading the data directory and writing the output

    The host of a run: [outPath name] is [path.join(OUT_DIR, name)] and
    [outDir] is [OUT_DIR].  The data directory is the list of its entries in
    the order of [readdirSync], each with the result of [JSON.parse] on its
    text, [None] when the text is not JSON.  The output directory is a map
    from paths to texts, which [writeFileSync] updates.  Failures of the
    file system itself are outside the model. *)

Class Host := {
  outPath : string → string;
  outDir : string
}.

(** [s.endsWith(suffix)] *)
Fixpoint endsWith (suffix s : string) : bool :=
  String.eqb s suffix ||
  match s with
  | EmptyString => false
  | String _ s' => endsWith suffix s'
  end.

(** The first statements of the script: the files named [*.json], parsed
    in order.  The first text that is not JSON throws. *)
Definition load (dir : list (string * option value)) : option (list value) :=
  mapM snd (List.filter (λ f, endsWith ".json" f.1) dir).

(** What a run leaves: the output directory, and the line it prints when it
    reaches its end, [None] when it does not: it throws before, or it meets
    one of the conversions that the model leaves out. *)
Record result := {
  disk : gmap string string;
  log : option string
}.

Section Run.
Context `{R : Runtime} `{H : Host}.

(** The loop over the records: each page is written as soon as it is
    rendered.  The flag tells whether the loop reached its end. *)
Fixpoint writePages (brands : gmap string (list value)) (cameras : list value)
    (d : gmap string string) : gmap string string * bool :=
  match cameras with
  | [] => (d, true)
  | cam :: rest =>
      match writePage brands cam with
      | Some page => writePages brands rest (<[outPath page.1 := page.2]> d)
      | None => (d, false)
      end
  end.

(** The script from its first statement to its last, on the data directory
    [dir] and the output directory [d].  Where [sort] or [cameraPage] has no
    result the run of the model stops; that is the script's behaviour when
    the missing result stands for an exception (a file that is not JSON, a
    brand that names a member of [Object.prototype], a text field that
    holds a number), and it says nothing of the script when the result is
    missing because the model leaves a conversion out. *)
Definition main (dir : list (string * option value)) (d : gmap string string)
  : result :=
  match load dir with
  | None => {| disk := d; log := None |}
  | Some files =>
      match sort files with
      | None => {| disk := d; log := None |}
      | Some cameras =>
          match group cameras with
          | None => {| disk := d; log := None |}
          | Some brands =>
              let (d1, finished) := writePages brands cameras d in
              if finished : bool then
                match brandSections brands with
                | Some sections =>
                    let count := Z.of_nat (List.length cameras) in
                    {| disk := <[outPath "index.html" := indexHtml count sections]> d1;
                       log := Some ("Generated " +:+ string_of_Z count
                                    +:+ " camera pages + index in " +:+ outDir) |}
                | None => {| disk := d1; log := None |}
                end
              else {| disk := d1; log := None |}
          end
      end
  end.

End Run.

(** ** A runtime for the examples

    [posix_basename] is the last non-empty segment of a path, as
    [path.basename] computes it on POSIX systems.  [code_compare] orders
    strings by their bytes and [ascii_lower] maps A-Z to a-z: on the brand
    names of the examples, capitalised ASCII words, they agree with
    [localeCompare] and [toLowerCase]. *)

Fixpoint basename_from (cur last : string) (s : string) : string :=
  match s with
  | EmptyString => if String.eqb cur "" then last else cur
  | String a s' =>
      if Ascii.eqb a "/"
      then basename_from "" (if String.eqb cur "" then last else cur) s'
      else basename_from (cur +:+ String a "") last s'
  end.

Definition posix_basename (s : string) : string := basename_from "" "" s.

Fixpoint code_compare (a b : string) : Z :=
  match a, b with
  | EmptyString, EmptyString => 0
  | EmptyString, String _ _ => -1
  | String _ _, EmptyString => 1
  | String x a', String y b' =>
      let d := Z.of_nat (nat_of_ascii x) - Z.of_nat (nat_of_ascii y) in
      if d =? 0 then code_compare a' b' else Z.sgn d
  end.

Definition ascii_lower (s : string) : string :=
  map_string (λ a, let n := nat_of_ascii a in
                   if ((65 <=? n) && (n <=? 90))%nat then ascii_of_nat (n + 32) else a) s.

#[export] Instance sample_runtime : Runtime := {|
  basename := posix_basename;
  localeCompare := code_compare;
  toLowerCase := ascii_lower
|}.

(** The host of the examples writes under [cameras/]. *)
#[export] Instance sample_host : Host := {|
  outPath := λ name, "cameras/" +:+ name;
  outDir := "cameras"
|}.

(** ** Records used in the examples *)

Definition range (min max : Z) : value :=
  VObj [("min", VNum min); ("max", VNum max)].

(** Only the fields every record has. *)
Definition rollei37 : value :=
  VObj [ ("id", VStr "rolleiflex-automat"); ("brand", VStr "Rollei");
         ("fullName", VStr "Rolleiflex Automat"); ("yearStart", VNum 1937);
         ("format", VStr "6x6") ].

Definition rollei54 : value :=
  VObj [ ("id", VStr "rolleiflex-28c"); ("brand", VStr "Rollei");
         ("fullName", VStr "Rolleiflex 2.8C"); ("yearStart", VNum 1954);
         ("yearEnd", VNum 1956); ("format", VStr "6x6");
         ("tagline", VStr "The first 2.8 with a Xenotar.");
         ("localImage", VStr "images/tlr/rolleiflex-28c.jpg");
         ("film", VArr [VStr "120"]);
         ("specs", VObj [ ("weight", VNum 1100);
                          ("takingLens", VStr "Xenotar 80mm f/2.8") ]);
         ("pricing", VObj [ ("poor", range 300 450); ("average", range 600 800);
                            ("mint", range 1200 1500); ("source", VStr "eBay") ]);
         ("articles", VArr [ VObj [ ("url", VStr "https://www.google.com/search?q=rolleiflex");
                                    ("title", VStr "Search"); ("source", VStr "Google") ] ]);
         ("galleries", VArr [ VObj [ ("url", VStr "https://www.google.com/search?q=rolleiflex&tbm=isch");
                                     ("label", VStr "Google Images") ];
                              VObj [ ("url", VStr "https://www.flickr.com/groups/rolleiflex");
                                     ("label", VStr "Flickr") ];
                              VObj [ ("url", VStr "https://example.com/gallery");
                                     ("label", VStr "Elsewhere") ] ]) ].

Definition mamiya : value :=
  VObj [ ("id", VStr "mamiya-c330"); ("brand", VStr "Mamiya");
         ("fullName", VStr "Mamiya C330"); ("yearStart", VNum 1969);
         ("format", VStr "6x6") ].

(** A brand outside the fixed display order. *)
Definition ricoh : value :=
  VObj [ ("id", VStr "ricohflex-vii"); ("brand", VStr "Ricoh");
         ("fullName", VStr "Ricohflex VII"); ("yearStart", VNum 1954);
         ("format", VStr "6x6") ].

(** Pricing with the conditions poor and excellent only. *)
Definition poor_excellent : value :=
  VObj [ ("poor", range 50 80); ("excellent", range 200 300) ].

Definition yashica : value :=
  VObj [ ("id", VStr "yashica-a"); ("brand", VStr "Yashica");
         ("fullName", VStr "Tom & Jerry"); ("yearStart", VNum 1959);
         ("pricing", poor_excellent) ].

(** A record whose pricing is the number 0. *)
Definition zero_pricing : list (string * value) :=
  [ ("id", VStr "yashica-a"); ("brand", VStr "Yashica");
    ("fullName", VStr "Yashica-A"); ("yearStart", VNum 1959);
    ("pricing", VNum 0) ].

Definition rollei37_data : value :=
  VObj [ ("@context", VStr "https://schema.org");
         ("@type", VStr "Product");
         ("name", VStr "Rolleiflex Automat");
         ("description", VStr "Rolleiflex Automat twin-lens reflex camera");
         ("brand", VObj [("@type", VStr "Brand"); ("name", VStr "Rollei")]);
         ("category", VStr "Twin-Lens Reflex Camera");
         ("image", VUndef) ].



(** A record whose brand is the name of a member of [Object.prototype]. *)
Definition constructor_brand : value :=
  VObj [ ("id", VStr "odd"); ("brand", VStr "constructor");
         ("fullName", VStr "Odd"); ("yearStart", VNum 1950) ].

(** A record whose format is a number. *)
Definition numeric_format : value :=
  VObj [ ("id", VStr "yashica-mat"); ("brand", VStr "Yashica");
         ("fullName", VStr "Yashica-Mat"); ("yearStart", VNum 1957);
         ("format", VNum 6) ].

(** A second record of 1937 for the brand Rollei. *)
Definition rolleicord37 : value :=
  VObj [ ("id", VStr "rolleicord-ia"); ("brand", VStr "Rollei");
         ("fullName", VStr "Rolleicord Ia"); ("yearStart", VNum 1937);
         ("format", VStr "6x6") ].

(** A data directory with two records and a file that is not read. *)
Definition sample_dir : list (string * option value) :=
  [ ("rolleiflex-automat.json", Some rollei37);
    ("README.md", None);
    ("ricohflex-vii.json", Some ricoh) ].

(** A data directory with a record that cannot be rendered. *)
Definition failing_dir : list (string * option value) :=
  [ ("yashica-mat.json", Some numeric_format);
    ("rolleiflex-automat.json", Some rollei37) ].

(** * The vocabulary of the specification *)

(** ** The blocks of a page, as they are to read in the output *)

(** The pricing block around the rows [rows] and the source line [src]. *)
Definition pricingBlock (rows src : string) : string :=
  Q "
    <div class=`pricing-table`>
      <h3>Current Market Prices (USD)</h3>
      <table>
        <thead><tr><th scope=`col`>Condition</th><th scope=`col`>Price Range</th></tr></thead>
        <tbody>" +:+ rows +:+ "</tbody>
      </table>
      " +:+ src +:+ "
    </div>".

(** The related block: a heading with the brand, and the links. *)
Definition relatedBlock (ebrand : string) (links : list string) : string :=
  Q "<div class=`related`><h3>More " +:+ ebrand +:+ " TLR Cameras</h3><p>"
  +:+ String.concat ", " links +:+ "</p></div>".


(** One section of the index: anchor, heading with the brand, cards. *)
Definition sectionBlock (id ebrand cards : string) : string :=
  String.concat "" [
      Q "
    <div class=`brand-section` id=`";
      id;
      Q "`>
      <h2>";
      ebrand;
      Q " TLR Cameras</h2>
      <div class=`camera-grid`>";
      cards;
      "</div>
    </div>" ].

(** ** Escaping *)

(** What [escHtml] does to one character. *)
Definition escape_char (a : ascii) : string :=
  if Ascii.eqb a "&" then "&amp;"
  else if Ascii.eqb a "<" then "&lt;"
  else if Ascii.eqb a ">" then "&gt;"
  else if Ascii.eqb a dquote then "&quot;"
  else String a "".

(** The text [s] with each character escaped. *)
Fixpoint escape_chars (s : string) : string :=
  match s with
  | EmptyString => EmptyString
  | String a s' => escape_char a +:+ escape_chars s'
  end.



(** ** Objects and truth tests *)

(** The member [k] of the object [l], [undefined] when there is none. *)
Definition field (l : list (string * value)) (k : string) : value :=
  default VUndef (assoc k l).

(** The object [l] without its member [k]. *)
Definition without (k : string) (l : list (string * value)) : list (string * value) :=
  List.filter (λ kv, negb (String.eqb kv.1 k)) l.

(** Two values that a truth test cannot tell apart: the same value, or two
    falsy values. *)
Definition same_truth (a b : value) : Prop :=
  a = b ∨ (truthy a = false ∧ truthy b = false).

(** The fields a record may lack.  Each is read only under a truth test, or
    by [escHtml], which tests it first. *)
Definition optional_fields : list string :=
  [ "tagline"; "yearEnd"; "format"; "film"; "madeIn"; "localImage";
    "imageAttribution"; "specs"; "features"; "history"; "famousUsers";
    "popCulture"; "innovations"; "notes"; "pricing"; "ebayUrl"; "articles";
    "manuals"; "galleries" ].

(** [k] is one of the optional fields. *)
Definition is_optional (k : string) : bool :=
  existsb (String.eqb k) optional_fields.

(** Two records that differ only in optional fields that are falsy in both. *)
Definition agree (l1 l2 : list (string * value)) : Prop :=
  ∀ k, field l1 k = field l2 k
       ∨ (is_optional k = true
          ∧ truthy (field l1 k) = false ∧ truthy (field l2 k) = false).

(** ** The pricing table and the offer *)

(** A condition has data when the pricing object holds an entry for it; an
    entry is a range, an object, hence truthy. *)
Definition has_data (pricing : value) (c : string) : bool :=
  truthy (opt_get pricing c).

(** The row of one condition: [cl] is a condition with its label. *)
Definition rowText (pricing : value) (cl : string * string) : string :=
  let p := opt_get pricing cl.1 in
  "<tr><td>" +:+ cl.2 +:+ "</td><td>$" +:+ toString (opt_get p "min")
  +:+ " – $" +:+ toString (opt_get p "max") +:+ "</td></tr>".

(** One row for each condition that has data, in the order of the labels. *)
Definition priceRows (pricing : value) : list string :=
  List.map (rowText pricing)
    (List.filter (λ cl, has_data pricing cl.1) (zip conditions labels)).






(** ** Links *)

(** A link that opens in a new tab. *)
Definition anchor (href rel text : string) : string :=
  Q "<a href=`" +:+ href +:+ Q "` target=`_blank` rel=`" +:+ rel +:+ Q "`>"
  +:+ text +:+ "</a>".


(** ** Sections of optional fields *)

(** The optional fields that have a section of their own on the page, each
    with the fragment that renders it.  For [specs] the fragment is the
    table; the heading above it belongs to the fixed text of the page. *)
Definition sections `{R : Runtime} : list (string * (value → option string)) :=
  [ ("tagline", taglineHtml);
    ("madeIn", originHtml);
    ("localImage", imageHtml);
    ("specs", λ cam, specs ← get cam "specs"; specsTable specs);
    ("features", featuresHtml);
    ("history", historyHtml);
    ("famousUsers", famousUsersHtml);
    ("popCulture", popCultureHtml);
    ("innovations", innovationsHtml);
    ("notes", notesHtml);
    ("pricing", λ cam, pricing ← get cam "pricing"; formatPrice pricing);
    ("ebayUrl", ebayHtml);
    ("articles", λ cam, articles ← get cam "articles"; articlesList articles);
    ("manuals", λ cam, manuals ← get cam "manuals"; manualsList manuals);
    ("galleries", λ cam, galleries ← get cam "galleries"; galleriesList galleries) ].

(** ** The collection, its order and its groups *)

(** The keys of the sort, for a record that has them with their types. *)
Definition brand_of (c : value) : option string :=
  match get c "brand" with
  | Some (VStr b) => Some b
  | _ => None
  end.

Definition year_of (c : value) : option Z :=
  match get c "yearStart" with
  | Some (VNum y) => Some y
  | _ => None
  end.

(** A record that has both keys. *)
Definition keyed (c : value) : bool :=
  match brand_of c, year_of c with
  | Some _, Some _ => true
  | _, _ => false
  end.

(** [a] may stand in front of [b]. *)
Definition order `{R : Runtime} (a b : value) : Prop :=
  ∃ c, compareFn a b = Some c ∧ c <= 0.

(** The key under which the grouping files a record, and the test that a
    record belongs to the group of [b]. *)
Definition brand_key (c : value) : string := toString (opt_get c "brand").

Definition has_brand (b : string) (c : value) : bool :=
  String.eqb (brand_key c) b.

(** The identifier of a record, when it is a string. *)
Definition id_of (c : value) : option string :=
  match get c "id" with
  | Some (VStr s) => Some s
  | _ => None
  end.

(** Two records with the same identifier. *)
Definition same_id (a b : value) : bool := bool_decide (id_of a = id_of b).

(** The other records of the collection that share the brand of [cam]. *)
Definition others (cameras : list value) (cam : value) : list value :=
  List.filter (λ c, has_brand (brand_key cam) c && negb (same_id c cam)) cameras.

(** ** Pages and index *)

(** The name of the file that holds the page of a record. *)
Definition pageName (cam : value) : string :=
  toString (opt_get cam "id") +:+ ".html".

(** The card of a record on the index starts with this link. *)
Definition card_link (id : string) : string :=
  Q "<a href=`/cameras/" +:+ id +:+ Q ".html` class=`camera-card`>".

(** The section of a brand, from the sorted collection: one card for each
    record of the brand, in the order of the collection. *)
Definition brandSection_of `{R : Runtime} (cameras : list value) (brand : string)
  : option string :=
  cards ← mapM card (List.filter (has_brand brand) cameras);
  Some (sectionBlock (toLowerCase brand) (escape_chars brand)
          (String.concat newline cards)).

(** ** Records of the data model *)

(** A text field: a string, or nothing. *)
Definition text (v : value) : bool :=
  match v with
  | VStr _ => true
  | _ => negb (truthy v)
  end.

(** An entry of a list of resources, or an attribution: an object whose
    fields [ks] are text fields. *)
Definition entry (ks : list string) (e : value) : bool :=
  match e with
  | VObj l => forallb (λ k, text (field l k)) ks
  | _ => false
  end.

(** A list field: an array whose elements satisfy [p], or nothing. *)
Definition list_of (p : value → bool) (v : value) : bool :=
  match v with
  | VArr l => forallb p l
  | _ => negb (truthy v)
  end.

(** A string, and a number. *)
Definition is_string (v : value) : bool :=
  match v with VStr _ => true | _ => false end.

Definition is_number (v : value) : bool :=
  match v with VNum _ => true | _ => false end.

(** A record as the data model describes it: identifier, brand and name are
    strings, the first year is a number, and each optional field is absent
    or has its type.  The brand is not the name of a member of
    [Object.prototype]. *)
Definition valid_record (c : value) : bool :=
  match c with
  | VObj l =>
      is_string (field l "id")
      && is_string (field l "brand")
      && negb (bool_decide (brand_key c ∈ object_prototype_keys))
      && is_string (field l "fullName")
      && is_number (field l "yearStart")
      && forallb (λ k, text (field l k))
           [ "tagline"; "format"; "madeIn"; "localImage"; "history";
             "famousUsers"; "popCulture"; "notes"; "ebayUrl" ]
      && list_of (λ _, true) (field l "film")
      && list_of text (field l "features")
      && list_of text (field l "innovations")
      && text (opt_get (field l "pricing") "source")
      && list_of (entry ["url"; "title"; "source"]) (field l "articles")
      && list_of (entry ["url"; "source"]) (field l "manuals")
      && list_of (entry ["url"; "label"]) (field l "galleries")
      && (negb (truthy (field l "imageAttribution"))
          || entry ["author"; "licenseUrl"; "license"; "sourceUrl"]
               (field l "imageAttribution"))
  | _ => false
  end.

(** ** The specifications table *)

(** The row of one field: [kl] is a key with its label. *)
Definition specRowText (specs : value) (kl : string * string) : string :=
  "<tr><td>" +:+ kl.2 +:+ "</td><td>"
  +:+ escape_chars (toString (opt_get specs kl.1)) +:+ "</td></tr>".

(** One row for each field of the fixed list that has a truthy value. *)
Definition specRows (specs : value) : list string :=
  List.map (specRowText specs)
    (List.filter (λ kl, truthy (opt_get specs kl.1)) fields).

(** The template that [specsTable] returns. *)
Definition specsBlock (rows : string) : string :=
  Q "<table class=`specs-table` role=`table` aria-label=`Camera specifications`><tbody>"
  +:+ rows +:+ "</tbody></table>".

(** ** Texts *)

(** One of the four characters that [escHtml] rewrites. *)
Definition special (a : ascii) : bool :=
  Ascii.eqb a "&" || Ascii.eqb a "<" || Ascii.eqb a ">" || Ascii.eqb a dquote.

Fixpoint has_special (s : string) : bool :=
  match s with
  | EmptyString => false
  | String a s' => special a || has_special s'
  end.

(** ** The output directory *)

(** The directory after the pages [ps] were written to it, in order. *)
Definition written `{H : Host} (ps : list (string * string)) (d : gmap string string)
  : gmap string string :=
  foldl (λ d page, <[outPath page.1 := page.2]> d) d ps.

(** The line that a run prints at its end. *)
Definition summary `{H : Host} (count : nat) : string :=
  "Generated " +:+ string_of_Z (Z.of_nat count) +:+ " camera pages + index in "
  +:+ outDir.

(** Two records between which the comparison function does not decide. *)
Definition tie `{R : Runtime} (a b : value) : bool :=
  match compareFn a b with
  | Some 0 => true
  | _ => false
  end.

(** ** Fields that hold a text *)

(** The fields of a record that the page passes to [escHtml] as they are,
    or whose methods it calls. *)
Definition text_fields : list string :=
  [ "fullName"; "brand"; "format"; "tagline"; "madeIn"; "history";
    "famousUsers"; "popCulture"; "notes"; "ebayUrl" ].

(** * Properties *)

(** ** Strings *)

#[local] Arguments String.append : simpl nomatch.

Lemma append_assoc (a b c : string) : (a +:+ b) +:+ c = a +:+ (b +:+ c).
Proof. induction a as [|x a IH]; simpl; [done | by rewrite IH]. Qed.

Lemma append_empty_r (a : string) : a +:+ "" = a.
Proof. induction a as [|x a IH]; simpl; [done | by rewrite IH]. Qed.

Lemma replaceAll_append c r (a b : string) :
  replaceAll c r (a +:+ b) = replaceAll c r a +:+ replaceAll c r b.
Proof.
  induction a as [|x a IH]; [done|].
  cbn [append replaceAll]. destruct (Ascii.eqb x c); rewrite IH.
  - by rewrite append_assoc.
  - done.
Qed.

(** ** Reading properties *)

Lemma opt_get_truthy p k : truthy p = true → get p k = Some (opt_get p k).
Proof. by destruct p. Qed.

Lemma opt_get_falsy p k : truthy p = false → truthy (opt_get p k) = false.
Proof.
  destruct p as [| |b|n|s|l|l]; try done; simpl; intros H.
  destruct (String.eqb k "length"); [|done].
  destruct s; [done | discriminate].
Qed.

Lemma opt_get_falsy_undef p k :
  truthy p = false → String.eqb k "length" = false → opt_get p k = VUndef.
Proof.
  intros Hp Hk. destruct p as [| |b|n|s|l|l]; try done; simpl; by rewrite Hk.
Qed.

(** ** Escaping *)

(** The four passes of [escHtml] amount to one pass over the characters:
    the ampersands that the later passes meet are those of the text, since
    the first pass has already rewritten them. *)
Lemma escape_one_pass s : escape s = escape_chars s.
Proof.
  unfold escape. induction s as [|a s IH]; [done|].
  cbn [replaceAll escape_chars]. unfold escape_char.
  destruct (Ascii.eqb a "&") eqn:E1.
  { rewrite !replaceAll_append, IH. done. }
  cbn [replaceAll]. destruct (Ascii.eqb a "<") eqn:E2.
  { rewrite !replaceAll_append, IH. done. }
  cbn [replaceAll]. destruct (Ascii.eqb a ">") eqn:E3.
  { rewrite !replaceAll_append, IH. done. }
  cbn [replaceAll]. destruct (Ascii.eqb a dquote) eqn:E4.
  { rewrite IH. done. }
  rewrite IH. done.
Qed.



Lemma escHtml_string s : escHtml (VStr s) = Some (escape_chars s).
Proof.
  unfold escHtml. cbn [truthy]. destruct s as [|a s]; [done|].
  cbn [String.eqb negb]. by rewrite escape_one_pass.
Qed.

Lemma escHtml_falsy v : truthy v = false → escHtml v = Some "".
Proof. intros H. unfold escHtml. by rewrite H. Qed.

Example escHtml_ex :
  escHtml (VStr (Q "a<b & `c` — d>")) = Some "a&lt;b &amp; &quot;c&quot; — d&gt;".
Proof. vm_compute. reflexivity. Qed.



(** ** Objects with one member removed *)

Lemma assoc_without k k' l :
  assoc k' (without k l) = if String.eqb k' k then None else assoc k' l.
Proof.
  induction l as [|[k0 v0] l IH]; simpl.
  - by destruct (String.eqb k' k).
  - destruct (String.eqb k0 k) eqn:E0; simpl.
    + apply String.eqb_eq in E0 as ->. rewrite IH.
      by destruct (String.eqb k' k).
    + rewrite IH. destruct (String.eqb k' k0) eqn:E1; [|done].
      apply String.eqb_eq in E1 as ->. by rewrite E0.
Qed.

Lemma same_truth_without k k' l v :
  assoc k l = Some v → truthy v = false →
  same_truth (default VUndef (assoc k' l)) (default VUndef (assoc k' (without k l))).
Proof.
  intros Hk Hv. rewrite assoc_without.
  destruct (String.eqb k' k) eqn:E; [|by left].
  apply String.eqb_eq in E as ->. rewrite Hk. by right.
Qed.

(** ** [specsTable] and [formatPrice] see their argument through truth tests *)

Lemma specRow_ext l1 l2 rows kl :
  same_truth (default VUndef (assoc kl.1 l1)) (default VUndef (assoc kl.1 l2)) →
  specRow (VObj l1) rows kl = specRow (VObj l2) rows kl.
Proof.
  unfold specRow. simpl. intros [->|[H1 H2]]; [done|]. by rewrite H1, H2.
Qed.

Lemma foldM_ext {A B} (f g : B → A → option B) l :
  (∀ b a, a ∈ l → f b a = g b a) → ∀ b, foldM f b l = foldM g b l.
Proof.
  induction l as [|a l IH]; intros H b; simpl; [done|].
  rewrite (H b a) by left. destruct (g b a); simpl; [|done].
  apply IH. intros. apply H. by right.
Qed.

Lemma specsTable_ext l1 l2 :
  (∀ k, same_truth (default VUndef (assoc k l1)) (default VUndef (assoc k l2))) →
  specsTable (VObj l1) = specsTable (VObj l2).
Proof.
  intros H. unfold specsTable. cbn [truthy negb].
  rewrite (foldM_ext (specRow (VObj l1)) (specRow (VObj l2))); [done|].
  intros. by apply specRow_ext.
Qed.

Lemma priceRow_ext l1 l2 rows cl :
  same_truth (default VUndef (assoc cl.1 l1)) (default VUndef (assoc cl.1 l2)) →
  priceRow (VObj l1) rows cl = priceRow (VObj l2) rows cl.
Proof.
  unfold priceRow. simpl. intros [->|[H1 H2]]; [done|]. by rewrite H1, H2.
Qed.

Lemma formatPrice_ext l1 l2 :
  (∀ k, same_truth (default VUndef (assoc k l1)) (default VUndef (assoc k l2))) →
  formatPrice (VObj l1) = formatPrice (VObj l2).
Proof.
  intros H. unfold formatPrice. cbn [truthy negb].
  rewrite (foldM_ext (priceRow (VObj l1)) (priceRow (VObj l2)));
    [|intros; by apply priceRow_ext].
  destruct (foldM _ _ _) as [rows|]; simpl; [|done].
  destruct (String.eqb rows ""); [done|].
  unfold priceSource. simpl.
  destruct (H "source") as [->|[H1 H2]]; [done|]. by rewrite H1, H2.
Qed.

(** ** The page sees the optional fields through truth tests *)

Lemma get_obj l k : get (VObj l) k = Some (field l k).
Proof. done. Qed.

Ltac agree_on H k :=
  let E := fresh "E" in
  let F1 := fresh "F" in
  let F2 := fresh "F" in
  destruct (H k) as [E|[? [F1 F2]]];
  [ rewrite ?E
  | try discriminate;
    unfold or_else, escHtml, offers, formatPrice, specsTable, imageAttribution,
      articlesList, manualsList, galleriesList, no_entries;
    rewrite ?F1, ?F2; cbn [negb] ].

Section PageAgree.
Context `{R : Runtime}.
Variables l1 l2 : list (string * value).
Hypothesis H : agree l1 l2.

Lemma years_agree : years (VObj l1) = years (VObj l2).
Proof.
  unfold years. rewrite !get_obj. cbn [mbind option_bind].
  agree_on H "yearStart". by agree_on H "yearEnd".
Qed.

Lemma taglineClean_agree : taglineClean (VObj l1) = taglineClean (VObj l2).
Proof.
  unfold taglineClean. rewrite !get_obj. cbn [mbind option_bind].
  by agree_on H "tagline".
Qed.

Lemma metaDesc_agree : metaDesc (VObj l1) = metaDesc (VObj l2).
Proof.
  unfold metaDesc. rewrite years_agree, taglineClean_agree, !get_obj.
  by agree_on H "fullName".
Qed.

Lemma imgFile_agree : imgFile (VObj l1) = imgFile (VObj l2).
Proof.
  unfold imgFile. rewrite !get_obj. cbn [mbind option_bind].
  by agree_on H "localImage".
Qed.

Lemma featuresHtml_agree : featuresHtml (VObj l1) = featuresHtml (VObj l2).
Proof.
  unfold featuresHtml. rewrite !get_obj. cbn [mbind option_bind].
  by agree_on H "features".
Qed.

Lemma innovationsHtml_agree : innovationsHtml (VObj l1) = innovationsHtml (VObj l2).
Proof.
  unfold innovationsHtml. rewrite !get_obj. cbn [mbind option_bind].
  by agree_on H "innovations".
Qed.

Lemma famousUsersHtml_agree : famousUsersHtml (VObj l1) = famousUsersHtml (VObj l2).
Proof.
  unfold famousUsersHtml. rewrite !get_obj. cbn [mbind option_bind].
  by agree_on H "famousUsers".
Qed.

Lemma popCultureHtml_agree : popCultureHtml (VObj l1) = popCultureHtml (VObj l2).
Proof.
  unfold popCultureHtml. rewrite !get_obj. cbn [mbind option_bind].
  by agree_on H "popCulture".
Qed.

Lemma notesHtml_agree : notesHtml (VObj l1) = notesHtml (VObj l2).
Proof.
  unfold notesHtml. rewrite !get_obj. cbn [mbind option_bind].
  by agree_on H "notes".
Qed.

Lemma ebayHtml_agree : ebayHtml (VObj l1) = ebayHtml (VObj l2).
Proof.
  unfold ebayHtml. rewrite !get_obj. cbn [mbind option_bind].
  agree_on H "fullName". by agree_on H "ebayUrl".
Qed.

Lemma ogImage_agree : ogImage (VObj l1) = ogImage (VObj l2).
Proof. unfold ogImage. by rewrite imgFile_agree. Qed.

Lemma jsonLd_agree : jsonLd (VObj l1) = jsonLd (VObj l2).
Proof.
  unfold jsonLd, jsonLd_data. rewrite !get_obj. cbn [mbind option_bind].
  agree_on H "fullName". agree_on H "brand".
  agree_on H "tagline"; agree_on H "localImage"; by agree_on H "pricing".
Qed.

Lemma taglineHtml_agree : taglineHtml (VObj l1) = taglineHtml (VObj l2).
Proof.
  unfold taglineHtml. rewrite !get_obj. cbn [mbind option_bind].
  by agree_on H "tagline".
Qed.

Lemma originHtml_agree : originHtml (VObj l1) = originHtml (VObj l2).
Proof.
  unfold originHtml. rewrite !get_obj. cbn [mbind option_bind].
  by agree_on H "madeIn".
Qed.

Lemma filmText_agree : filmText (VObj l1) = filmText (VObj l2).
Proof.
  unfold filmText. rewrite !get_obj. cbn [mbind option_bind].
  by agree_on H "film".
Qed.

Lemma camMeta_agree : camMeta (VObj l1) = camMeta (VObj l2).
Proof.
  unfold camMeta. rewrite years_agree, filmText_agree, originHtml_agree, !get_obj.
  cbn [mbind option_bind]. by agree_on H "format".
Qed.

Lemma imageHtml_agree : imageHtml (VObj l1) = imageHtml (VObj l2).
Proof.
  unfold imageHtml. rewrite imgFile_agree, !get_obj.
  destruct (imgFile (VObj l2)) as [img|]; [|done]. cbn [mbind option_bind].
  destruct (truthy img); [|done].
  agree_on H "fullName". by agree_on H "imageAttribution".
Qed.

Lemma historyHtml_agree : historyHtml (VObj l1) = historyHtml (VObj l2).
Proof.
  unfold historyHtml. rewrite !get_obj. cbn [mbind option_bind].
  by agree_on H "history".
Qed.

Lemma relatedCameras_agree brands :
  relatedCameras brands (VObj l1) = relatedCameras brands (VObj l2).
Proof.
  unfold relatedCameras, siblings. rewrite !get_obj. cbn [mbind option_bind].
  agree_on H "brand". by agree_on H "id".
Qed.

Lemma card_agree : card (VObj l1) = card (VObj l2).
Proof.
  unfold card. rewrite imgFile_agree, years_agree, !get_obj.
  destruct (imgFile (VObj l2)); [|done]. cbn [mbind option_bind].
  destruct (years (VObj l2)); [|done]. cbn [mbind option_bind].
  agree_on H "fullName". agree_on H "id".
  destruct (H "pricing") as [->|[_ [F1 F2]]]; [done|].
  by rewrite (opt_get_falsy _ "average" F1), (opt_get_falsy _ "average" F2).
Qed.

Lemma cameraPage_agree brands :
  cameraPage brands (VObj l1) = cameraPage brands (VObj l2).
Proof.
  unfold cameraPage.
  rewrite metaDesc_agree, featuresHtml_agree, innovationsHtml_agree,
    famousUsersHtml_agree, popCultureHtml_agree, notesHtml_agree, ebayHtml_agree,
    ogImage_agree, jsonLd_agree, taglineHtml_agree, camMeta_agree, imageHtml_agree,
    historyHtml_agree, relatedCameras_agree, !get_obj.
  cbn [mbind option_bind].
  agree_on H "fullName". agree_on H "id". agree_on H "brand".
  agree_on H "specs"; agree_on H "pricing"; agree_on H "articles";
    agree_on H "manuals"; by agree_on H "galleries".
Qed.

End PageAgree.

Lemma agree_without l k v :
  is_optional k = true → assoc k l = Some v → truthy v = false →
  agree l (without k l).
Proof.
  intros Hk Hl Hv k'. unfold field. rewrite assoc_without.
  destruct (String.eqb k' k) eqn:E; [|by left].
  apply String.eqb_eq in E as ->. right. by rewrite Hl.
Qed.

Lemma offers_ext l1 l2 :
  (∀ k, same_truth (default VUndef (assoc k l1)) (default VUndef (assoc k l2))) →
  offers (VObj l1) = offers (VObj l2).
Proof.
  intros H. unfold offers. rewrite !get_obj. unfold field.
  cbn [truthy negb mbind option_bind].
  destruct (H "average") as [->|[H1 H2]]; [|by rewrite H1, H2].
  destruct (truthy (default VUndef (assoc "average" l2))) eqn:Ha; [|done].
  cbn [negb]. rewrite !(opt_get_truthy _ _ Ha). cbn [mbind option_bind].
  assert (∀ k m, String.eqb m "length" = false →
            opt_get (default VUndef (assoc k l1)) m
            = opt_get (default VUndef (assoc k l2)) m) as E.
  { intros k m Hm. destruct (H k) as [->|[H1 H2]]; [done|].
    by rewrite !opt_get_falsy_undef. }
  by rewrite !E.
Qed.

(** C10.  A member that is present but falsy counts as absent.  Let the
    object [l] hold a falsy value [v] (an empty string, 0, false, null)
    under the key [k].  Then [escHtml] maps [v] to the empty string; read
    as a specs object or as a pricing object, [l] is rendered as it is
    without [k], so a specs value of 0 and a falsy condition entry give no
    row, and no bound of the offer either; and read as a record, when [k]
    is one of the optional fields, [l] gets the page and the index card it
    gets without [k]. *)
Theorem falsy_is_absent `{R : Runtime} (brands : gmap string (list value))
    (l : list (string * value)) (k : string) (v : value) :
  assoc k l = Some v → truthy v = false →
  escHtml v = Some ""
  ∧ specsTable (VObj l) = specsTable (VObj (without k l))
  ∧ formatPrice (VObj l) = formatPrice (VObj (without k l))
  ∧ offers (VObj l) = offers (VObj (without k l))
  ∧ (is_optional k = true →
     cameraPage brands (VObj l) = cameraPage brands (VObj (without k l))
     ∧ card (VObj l) = card (VObj (without k l))).
Proof.
  intros Hl Hv. split; [by apply escHtml_falsy|].
  split; [apply specsTable_ext; intros; by eapply same_truth_without|].
  split; [apply formatPrice_ext; intros; by eapply same_truth_without|].
  split; [apply offers_ext; intros; by eapply same_truth_without|].
  intros Hk. split.
  - apply cameraPage_agree. by eapply agree_without.
  - apply card_agree. by eapply agree_without.
Qed.

Lemma falsy_is_absent_witness :
  assoc "pricing" zero_pricing = Some (VNum 0)
  ∧ truthy (VNum 0) = false
  ∧ is_optional "pricing" = true
  ∧ escHtml (VNum 0) = Some ""
  ∧ specsTable (VObj zero_pricing) = specsTable (VObj (without "pricing" zero_pricing))
  ∧ formatPrice (VObj zero_pricing) = formatPrice (VObj (without "pricing" zero_pricing))
  ∧ offers (VObj zero_pricing) = offers (VObj (without "pricing" zero_pricing))
  ∧ cameraPage ∅ (VObj zero_pricing)
    = cameraPage ∅ (VObj (without "pricing" zero_pricing))
  ∧ card (VObj zero_pricing) = card (VObj (without "pricing" zero_pricing)).
Proof.
  split; [reflexivity|]. split; [reflexivity|]. split; [reflexivity|].
  destruct (falsy_is_absent (R := sample_runtime) ∅ zero_pricing "pricing" (VNum 0)
              eq_refl eq_refl) as (H1 & H2 & H3 & H4 & H5).
  destruct (H5 eq_refl) as [H6 H7].
  repeat split; assumption.
Defined.

Example specs_zero_no_row :
  specsTable (VObj [("weight", VNum 0); ("shutter", VStr "Compur")])
  = Some (Q "<table class=`specs-table` role=`table` aria-label=`Camera specifications`><tbody><tr><td>Shutter</td><td>Compur</td></tr></tbody></table>").
Proof. vm_compute. reflexivity. Qed.

Example pricing_null_no_row :
  formatPrice (VObj [("poor", VNull); ("good", range 100 200)])
  = formatPrice (VObj [("good", range 100 200)]).
Proof. vm_compute. reflexivity. Qed.

(** ** The pricing table *)

Lemma concat_empty_cons x xs :
  String.concat "" (x :: xs) = x +:+ String.concat "" xs.
Proof. destruct xs; simpl; [by rewrite append_empty_r | done]. Qed.

Lemma priceRow_step pricing acc cl :
  truthy pricing = true →
  priceRow pricing acc cl
  = Some (if has_data pricing cl.1 then acc +:+ rowText pricing cl else acc).
Proof.
  intros Hp. unfold priceRow, has_data, rowText.
  rewrite (opt_get_truthy pricing cl.1 Hp). cbn [mbind option_bind].
  destruct (truthy (opt_get pricing cl.1)) eqn:E; [|done].
  by rewrite !(opt_get_truthy _ _ E).
Qed.

Lemma priceRow_loop pricing l acc :
  truthy pricing = true →
  foldM (priceRow pricing) acc l
  = Some (acc +:+ String.concat ""
            (List.map (rowText pricing)
               (List.filter (λ cl, has_data pricing cl.1) l))).
Proof.
  intros Hp. revert acc. induction l as [|cl l IH]; intros acc.
  - simpl. by rewrite append_empty_r.
  - cbn [foldM List.filter]. rewrite (priceRow_step _ _ _ Hp).
    cbn [mbind option_bind]. rewrite IH.
    destruct (has_data pricing cl.1); [|done].
    cbn [List.map]. by rewrite concat_empty_cons, append_assoc.
Qed.

Lemma concat_rows_empty pricing l :
  String.eqb (String.concat "" (List.map (rowText pricing) l)) ""
  = match l with [] => true | _ => false end.
Proof. destruct l as [|cl l]; [done|]. by rewrite List.map_cons, concat_empty_cons. Qed.

(** C8.  [formatPrice] returns the empty string when the pricing is absent
    or no condition has data, and otherwise the table whose rows are those
    of the conditions that have data, one each, in the order poor, average,
    good, excellent, mint.  A record without a pricing field gets no
    [offers] member in its structured data. *)
Theorem pricing_table `{R : Runtime} (pricing cam data : value) :
  formatPrice pricing =
    (if negb (truthy pricing) then Some ""
     else match priceRows pricing with
          | [] => Some ""
          | rows => src ← priceSource pricing;
                    Some (pricingBlock (String.concat "" rows) src)
          end)
  ∧ List.length (priceRows pricing)
    = List.length (List.filter (has_data pricing) conditions)
  ∧ (get cam "pricing" = Some VUndef →
     jsonLd_data cam = Some data →
     formatPrice VUndef = Some "" ∧ get data "offers" = Some VUndef).
Proof.
  split; [|split].
  - unfold formatPrice. destruct (truthy pricing) eqn:Hp; [|done].
    cbn [negb]. rewrite (priceRow_loop _ _ _ Hp). cbn [mbind option_bind].
    change ("" +:+ ?s) with s. unfold priceRows.
    rewrite concat_rows_empty. by destruct (List.filter _ _).
  - unfold priceRows, conditions, labels. rewrite List.length_map. simpl.
    repeat (destruct (has_data pricing _)); reflexivity.
  - intros Hp Hd. split; [done|].
    unfold jsonLd_data in Hd. rewrite Hp in Hd.
    destruct cam; try discriminate; simpl in Hd;
      repeat (match type of Hd with
              | context [if ?b then _ else _] => destruct b
              | context [path_basename ?x] => destruct (path_basename x)
              end; simpl in Hd);
      by simplify_eq.
Qed.

Lemma pricing_table_witness :
  get rollei37 "pricing" = Some VUndef
  ∧ jsonLd_data rollei37 = Some rollei37_data
  ∧ formatPrice VUndef = Some ""
  ∧ get rollei37_data "offers" = Some VUndef.
Proof.
  split; [reflexivity|]. split; [reflexivity|].
  apply (proj2 (proj2 (pricing_table (R := sample_runtime) VUndef rollei37 rollei37_data)));
    reflexivity.
Defined.

Example formatPrice_ex :
  formatPrice (VObj [ ("mint", range 900 1200); ("poor", range 50 80) ])
  = Some (pricingBlock
            "<tr><td>Poor</td><td>$50 – $80</td></tr><tr><td>Mint</td><td>$900 – $1200</td></tr>"
            "").
Proof. vm_compute. reflexivity. Qed.

(** ** The aggregate offer *)





(** ** Links to external resources *)




(** ** The parts of a page *)


(** Inverts a chain of binds that ends in [Some]. *)
Ltac inv_bind H :=
  repeat match type of H with
         | mbind _ ?x = Some _ =>
             let E := fresh "E" in
             destruct x eqn:E; [cbn [mbind option_bind] in H | discriminate H]
         end.

Section PageParts.
Context `{R : Runtime}.


End PageParts.

(** ** Sections of optional fields *)

Section Sections.
Context `{R : Runtime}.






End Sections.



(** ** Sorting *)

Section Sorting.
Context `{R : Runtime}.

Lemma keyed_inv c :
  keyed c = true → ∃ b y, brand_of c = Some b ∧ year_of c = Some y.
Proof.
  unfold keyed. destruct (brand_of c) as [b|], (year_of c) as [y|]; try done.
  eauto.
Qed.

Lemma compareFn_keys a b ba ya bb yb :
  brand_of a = Some ba → year_of a = Some ya →
  brand_of b = Some bb → year_of b = Some yb →
  compareFn a b
  = Some (if localeCompare ba bb =? 0 then ya - yb else localeCompare ba bb).
Proof.
  unfold brand_of, year_of, compareFn. intros Ha Hya Hb Hyb.
  destruct (get a "brand") as [[]|]; simplify_eq.
  destruct (get b "brand") as [[]|]; simplify_eq.
  cbn [mbind option_bind toString].
  destruct (localeCompare ba bb =? 0); [|done].
  destruct (get a "yearStart") as [[]|]; simplify_eq.
  destruct (get b "yearStart") as [[]|]; simplify_eq.
  done.
Qed.

Context `{!RuntimeLaws R}.

Lemma localeCompare_signs a b :
  (localeCompare a b < 0 ↔ 0 < localeCompare b a)
  ∧ (localeCompare a b = 0 ↔ localeCompare b a = 0).
Proof.
  pose proof (localeCompare_antisym a b).
  pose proof (Z.sgn_spec (localeCompare a b)).
  pose proof (Z.sgn_spec (localeCompare b a)). lia.
Qed.

Lemma localeCompare_refl a : localeCompare a a = 0.
Proof. pose proof (localeCompare_signs a a). lia. Qed.

Lemma order_total a b c :
  keyed a = true → keyed b = true →
  compareFn a b = Some c → 0 < c → order b a.
Proof.
  intros (ba & ya & Ha & Hya)%keyed_inv (bb & yb & Hb & Hyb)%keyed_inv.
  rewrite (compareFn_keys _ _ _ _ _ _ Ha Hya Hb Hyb). intros [= <-] Hc.
  exists (if localeCompare bb ba =? 0 then yb - ya else localeCompare bb ba).
  split; [by apply compareFn_keys|].
  pose proof (localeCompare_signs ba bb).
  destruct (Z.eqb_spec (localeCompare ba bb) 0),
    (Z.eqb_spec (localeCompare bb ba) 0); lia.
Qed.

Lemma order_trans a b c :
  keyed a = true → keyed b = true → keyed c = true →
  order a b → order b c → order a c.
Proof.
  intros (ba & ya & Ha & Hya)%keyed_inv (bb & yb & Hb & Hyb)%keyed_inv
    (bc & yc & Hc & Hyc)%keyed_inv.
  unfold order.
  rewrite (compareFn_keys _ _ _ _ _ _ Ha Hya Hb Hyb),
    (compareFn_keys _ _ _ _ _ _ Hb Hyb Hc Hyc),
    (compareFn_keys _ _ _ _ _ _ Ha Hya Hc Hyc).
  intros (x & [= <-] & Hx) (y & [= <-] & Hy). eexists. split; [done|].
  pose proof (localeCompare_signs ba bb). pose proof (localeCompare_signs bb bc).
  pose proof (localeCompare_signs ba bc).
  pose proof (localeCompare_trans ba bb bc).
  pose proof (localeCompare_trans bc ba bb).
  pose proof (localeCompare_trans bb bc ba).
  destruct (Z.eqb_spec (localeCompare ba bb) 0),
    (Z.eqb_spec (localeCompare bb bc) 0),
    (Z.eqb_spec (localeCompare ba bc) 0); lia.
Qed.

(** Strict precedence of keys forces the order. *)
Lemma order_strict a b ba ya bb yb :
  brand_of a = Some ba → year_of a = Some ya →
  brand_of b = Some bb → year_of b = Some yb →
  localeCompare ba bb < 0 ∨ (ba = bb ∧ ya < yb) → ¬ order b a.
Proof.
  intros Ha Hya Hb Hyb Hlt (c & Hc & Hle).
  rewrite (compareFn_keys _ _ _ _ _ _ Hb Hyb Ha Hya) in Hc. injection Hc as <-.
  pose proof (localeCompare_signs ba bb).
  destruct Hlt as [Hlt|[-> Hlt]].
  - destruct (Z.eqb_spec (localeCompare bb ba) 0); lia.
  - rewrite localeCompare_refl in Hle. simpl in Hle. lia.
Qed.

Lemma insert_sorted x l :
  keyed x = true → Forall (λ c, keyed c = true) l → StronglySorted order l →
  ∃ r, insert x l = Some r ∧ r ≡ₚ x :: l ∧ StronglySorted order r.
Proof.
  intros Hx Hl Hs. induction l as [|y l IH]; simpl.
  - exists [x]. repeat split; [done|]. by repeat constructor.
  - apply Forall_cons in Hl as [Hy Hl]. apply StronglySorted_inv in Hs as [Hs Hyl].
    destruct (keyed_inv _ Hx) as (bx & yx & Hbx & Hyx).
    destruct (keyed_inv _ Hy) as (by' & yy & Hby & Hyy).
    pose proof (compareFn_keys _ _ _ _ _ _ Hbx Hyx Hby Hyy) as Hc.
    rewrite Hc. cbn [mbind option_bind].
    set (c := if localeCompare bx by' =? 0 then yx - yy else localeCompare bx by') in *.
    destruct (Z.leb_spec c 0) as [Hle|Hgt].
    + exists (x :: y :: l). repeat split; [done|].
      assert (order x y) as Hxy by (by exists c).
      constructor; [by constructor|]. constructor; [done|].
      rewrite Forall_forall in Hyl, Hl |- *. intros z Hz.
      apply (order_trans x y z); auto.
    + destruct (IH Hl Hs) as (r & -> & Hperm & Hsorted).
      exists (y :: r). cbn [mbind option_bind]. split; [done|]. split.
      * rewrite Hperm. apply Permutation_swap.
      * constructor; [done|]. rewrite Forall_forall in Hyl |- *. intros z Hz.
        rewrite Hperm in Hz. apply elem_of_cons in Hz as [->|Hz]; [|auto].
        by apply (order_total x y c).
Qed.

Lemma sort_sorted l :
  Forall (λ c, keyed c = true) l →
  ∃ s, sort l = Some s ∧ s ≡ₚ l ∧ StronglySorted order s.
Proof.
  induction l as [|x l IH]; intros Hl; simpl.
  - exists []. repeat split; [done|constructor].
  - apply Forall_cons in Hl as [Hx Hl].
    destruct (IH Hl) as (s & -> & Hperm & Hs). cbn [mbind option_bind].
    destruct (insert_sorted x s Hx) as (r & -> & Hr & Hsorted); [|done|].
    { by rewrite Hperm. }
    exists r. repeat split; [|done]. by rewrite Hr, Hperm.
Qed.

End Sorting.

Lemma StronglySorted_lookup {A} (Rel : relation A) l i j x y :
  StronglySorted Rel l → (i < j)%nat → l !! i = Some x → l !! j = Some y → Rel x y.
Proof.
  intros Hs. revert i j. induction Hs as [|a l Hs IH Ha]; intros i j Hij Hi Hj.
  - done.
  - destruct j as [|j]; [lia|]. destruct i as [|i]; simpl in *.
    + simplify_eq. rewrite Forall_forall in Ha. apply Ha.
      by eapply list_elem_of_lookup_2.
    + apply (IH i j); [lia|done..].
Qed.

(** ** Grouping *)

Lemma brands_lookup_Some brands k l :
  brands_lookup brands k = Some l →
  (k ∉ object_prototype_keys) ∧ l = default [] (brands !! k).
Proof.
  unfold brands_lookup. case_bool_decide; [done|]. by intros [= <-].
Qed.

Lemma brands_lookup_own brands k :
  k ∉ object_prototype_keys →
  brands_lookup brands k = Some (default [] (brands !! k)).
Proof. intros Hk. unfold brands_lookup. by rewrite bool_decide_eq_false_2. Qed.

Lemma group_step_lookup brands cam brands' b :
  group_step brands cam = Some brands' →
  default [] (brands' !! b)
  = (default [] (brands !! b) ++ (if has_brand b cam then [cam] else []))%list.
Proof.
  unfold group_step, has_brand, brand_key. intros H.
  destruct (get cam "brand") as [brand|] eqn:Hb; [|done].
  assert (opt_get cam "brand" = brand) as -> by (destruct cam; by simplify_eq/=).
  cbn [mbind option_bind] in H.
  destruct (brands_lookup _ _) as [cams|] eqn:Hl; [|done].
  apply brands_lookup_Some in Hl as [_ ->]. injection H as <-.
  destruct (String.eqb_spec (toString brand) b) as [->|Hne].
  - by rewrite lookup_insert_eq.
  - rewrite lookup_insert_ne by done. by rewrite app_nil_r.
Qed.

Lemma group_loop_lookup cameras brands brands' b :
  foldM group_step brands cameras = Some brands' →
  default [] (brands' !! b)
  = (default [] (brands !! b) ++ List.filter (has_brand b) cameras)%list.
Proof.
  revert brands. induction cameras as [|cam cameras IH]; intros brands H.
  - injection H as <-. by rewrite app_nil_r.
  - cbn [foldM] in H. destruct (group_step brands cam) as [m|] eqn:Hm; [|done].
    cbn [mbind option_bind] in H. rewrite (IH _ H), (group_step_lookup _ _ _ b Hm).
    cbn [List.filter]. rewrite <- app_assoc. by destruct (has_brand b cam).
Qed.

(** The group of a brand is the records of that brand, in the order of the
    sorted collection. *)
Lemma group_lookup cameras brands b :
  group cameras = Some brands → b ∉ object_prototype_keys →
  brands_lookup brands b = Some (List.filter (has_brand b) cameras).
Proof.
  intros H Hb. rewrite brands_lookup_own by done.
  by rewrite (group_loop_lookup _ _ _ b H), lookup_empty.
Qed.

(** ** The runtime of the examples is consistent *)

Lemma code_compare_antisym a b : code_compare a b = - code_compare b a.
Proof.
  revert b. induction a as [|x a IH]; intros [|y b]; simpl; try done.
  rewrite IH.
  destruct (Z.eqb_spec (Z.of_nat (nat_of_ascii x) - Z.of_nat (nat_of_ascii y)) 0),
    (Z.eqb_spec (Z.of_nat (nat_of_ascii y) - Z.of_nat (nat_of_ascii x)) 0);
    lia.
Qed.

Lemma code_compare_trans a b c :
  code_compare a b <= 0 → code_compare b c <= 0 → code_compare a c <= 0.
Proof.
  revert b c. induction a as [|x a IH]; intros [|y b] [|z c]; simpl; try lia.
  pose proof (Z.sgn_spec (Z.of_nat (nat_of_ascii x) - Z.of_nat (nat_of_ascii y))).
  pose proof (Z.sgn_spec (Z.of_nat (nat_of_ascii y) - Z.of_nat (nat_of_ascii z))).
  pose proof (Z.sgn_spec (Z.of_nat (nat_of_ascii x) - Z.of_nat (nat_of_ascii z))).
  destruct (Z.eqb_spec (Z.of_nat (nat_of_ascii x) - Z.of_nat (nat_of_ascii y)) 0),
    (Z.eqb_spec (Z.of_nat (nat_of_ascii y) - Z.of_nat (nat_of_ascii z)) 0),
    (Z.eqb_spec (Z.of_nat (nat_of_ascii x) - Z.of_nat (nat_of_ascii z)) 0);
    try lia.
  apply IH.
Qed.

#[export] Instance sample_laws : RuntimeLaws sample_runtime.
Proof.
  split.
  - intros a b. simpl. rewrite (code_compare_antisym a b), Z.sgn_opp. done.
  - intros a b c. apply code_compare_trans.
Qed.

(** ** The sorted collection and the index *)

(** C3 (as amended).  Whatever the order of the input, the sort puts a
    record [A] in front of a record [B] when the brand of [A] precedes the
    brand of [B] under [localeCompare], and when the brands are equal and
    [A] has the smaller first year.  The group of a brand, from which the
    index takes the cards of that brand's section, lists the records of
    the brand in the order of the sorted collection. *)
Theorem sorted_collection `{R : Runtime} `{!RuntimeLaws R} (files : list value) :
  Forall (λ c, keyed c = true) files →
  ∃ cameras,
    sort files = Some cameras
    ∧ cameras ≡ₚ files
    ∧ (∀ i j A B bA bB yA yB,
         cameras !! i = Some A → cameras !! j = Some B →
         brand_of A = Some bA → year_of A = Some yA →
         brand_of B = Some bB → year_of B = Some yB →
         localeCompare bA bB < 0 ∨ (bA = bB ∧ yA < yB) →
         (i < j)%nat)
    ∧ (∀ brands b,
         group cameras = Some brands → b ∉ object_prototype_keys →
         brands_lookup brands b = Some (List.filter (has_brand b) cameras)).
Proof.
  intros Hk. destruct (sort_sorted files Hk) as (cameras & Hs & Hperm & Hsorted).
  exists cameras. split; [done|]. split; [done|]. split.
  - intros i j A B bA bB yA yB Hi Hj HbA HyA HbB HyB Hlt.
    destruct (Nat.lt_trichotomy i j) as [Hij|[->|Hij]]; [done|..]; exfalso.
    + simplify_eq. destruct Hlt as [Hlt|[_ Hlt]]; [|lia].
      rewrite localeCompare_refl in Hlt. lia.
    + apply (order_strict A B bA yA bB yB); [done..|].
      by apply (StronglySorted_lookup order cameras j i).
  - intros brands b Hg Hb. by apply group_lookup.
Qed.

Lemma sorted_collection_witness :
  Forall (λ c, keyed c = true) [rollei54; mamiya; rollei37]
  ∧ ∃ cameras,
      sort (R := sample_runtime) [rollei54; mamiya; rollei37] = Some cameras
      ∧ cameras ≡ₚ [rollei54; mamiya; rollei37]
      ∧ (∀ i j A B bA bB yA yB,
           cameras !! i = Some A → cameras !! j = Some B →
           brand_of A = Some bA → year_of A = Some yA →
           brand_of B = Some bB → year_of B = Some yB →
           code_compare bA bB < 0 ∨ (bA = bB ∧ yA < yB) →
           (i < j)%nat)
      ∧ (∀ brands b,
           group cameras = Some brands → b ∉ object_prototype_keys →
           brands_lookup brands b = Some (List.filter (has_brand b) cameras)).
Proof.
  split; [by repeat constructor|].
  apply (sorted_collection (R := sample_runtime) [rollei54; mamiya; rollei37]).
  by repeat constructor.
Defined.

(** The scenario of C3: of two Rollei records, the one of 1937 comes first
    in the Rollei section, whatever the order of the input. *)
Example rollei_1937_first :
  ∃ out i j,
    build [rollei54; rollei37] = Some out
    ∧ String.index 0 (card_link "rolleiflex-automat") (indexPage out) = Some i
    ∧ String.index 0 (card_link "rolleiflex-28c") (indexPage out) = Some j
    ∧ (i < j)%nat.
Proof.
  do 3 eexists. split; [vm_compute; reflexivity|].
  split; [vm_compute; reflexivity|]. split; [vm_compute; reflexivity|].
  vm_compute. lia.
Qed.

(** C3, counterexample.  On the index the sections follow the fixed display
    order, not the order of the brands: Mamiya precedes Rollei in the
    sorted collection, and the card of the Rollei record precedes the card
    of the Mamiya record on the index. *)
Lemma index_follows_display_order :
  localeCompare (Runtime := sample_runtime) "Mamiya" "Rollei" < 0
  ∧ sort [rollei37; mamiya] = Some [mamiya; rollei37]
  ∧ ∃ out i j,
      build [rollei37; mamiya] = Some out
      ∧ String.index 0 (card_link "mamiya-c330") (indexPage out) = Some i
      ∧ String.index 0 (card_link "rolleiflex-automat") (indexPage out) = Some j
      ∧ (j < i)%nat.
Proof.
  split; [done|]. split; [vm_compute; reflexivity|].
  do 3 eexists. split; [vm_compute; reflexivity|].
  split; [vm_compute; reflexivity|]. split; [vm_compute; reflexivity|].
  vm_compute. lia.
Qed.

(** ** The sections of the index and the pages *)

Section Build.
Context `{R : Runtime}.

Lemma insert_perm x l r : insert x l = Some r → r ≡ₚ x :: l.
Proof.
  revert r. induction l as [|y l IH]; intros r; simpl.
  - by intros [= <-].
  - destruct (compareFn x y) as [c|]; [|done]. cbn [mbind option_bind].
    destruct (c <=? 0); [by intros [= <-]|].
    destruct (insert x l) as [r'|]; [|done]. intros [= <-].
    rewrite (IH r' eq_refl). apply Permutation_swap.
Qed.

Lemma sort_perm l s : sort l = Some s → s ≡ₚ l.
Proof.
  revert s. induction l as [|x l IH]; intros s; simpl.
  - by intros [= <-].
  - destruct (sort l) as [s'|]; [|done]. cbn [mbind option_bind].
    intros H%insert_perm. by rewrite H, (IH s' eq_refl).
Qed.

Lemma brandOrder_own b : b ∈ brandOrder → b ∉ object_prototype_keys.
Proof.
  unfold brandOrder, object_prototype_keys. intros Hb Hp.
  repeat (apply elem_of_cons in Hb as [->|Hb];
          [ repeat (apply elem_of_cons in Hp as [?|Hp]; [done|]);
            by apply elem_of_nil in Hp | ]).
  by apply elem_of_nil in Hb.
Qed.

Lemma brandSection_group cameras brands b :
  group cameras = Some brands → b ∈ brandOrder →
  brandSection brands b = brandSection_of cameras b.
Proof.
  intros Hg Hb. unfold brandSection, brandSection_of.
  rewrite (group_lookup _ _ _ Hg (brandOrder_own _ Hb)). cbn [mbind option_bind].
  destruct (mapM card _); [|done]. cbn [mbind option_bind].
  by rewrite escHtml_string.
Qed.

Lemma writePage_inv brands cam page :
  writePage brands cam = Some page →
  page.1 = pageName cam ∧ cameraPage brands cam = Some page.2.
Proof.
  unfold writePage, pageName. destruct (cameraPage brands cam) as [html|]; [|done].
  cbn [mbind option_bind]. destruct (get cam "id") as [id|] eqn:Hid; [|done].
  intros [= <-]. assert (opt_get cam "id" = id) as ->; [|done].
  destruct cam; by simplify_eq/=.
Qed.

(** What a run that ends returns. *)
Lemma build_inv (files : list value) (out : output) :
  build files = Some out →
  ∃ cameras brands sections,
    sort files = Some cameras
    ∧ cameras ≡ₚ files
    ∧ group cameras = Some brands
    ∧ Forall2 (λ cam page, page.1 = pageName cam
                           ∧ cameraPage brands cam = Some page.2)
        cameras (pages out)
    ∧ mapM (brandSection_of cameras) brandOrder = Some sections
    ∧ indexPage out
      = indexHtml (Z.of_nat (List.length cameras)) (String.concat newline sections).
Proof.
  unfold build. intros H.
  destruct (sort files) as [cameras|] eqn:Hs; [|done]. cbn [mbind option_bind] in H.
  destruct (group cameras) as [brands|] eqn:Hg; [|done]. cbn [mbind option_bind] in H.
  destruct (mapM _ cameras) as [ps|] eqn:Hp; [|done]. cbn [mbind option_bind] in H.
  destruct (brandSections brands) as [text|] eqn:Hb; [|done].
  cbn [mbind option_bind] in H. injection H as <-.
  unfold brandSections in Hb.
  destruct (mapM (brandSection brands) brandOrder) as [sections|] eqn:Hm; [|done].
  cbn [mbind option_bind] in Hb. injection Hb as <-.
  exists cameras, brands, sections.
  split; [done|]. split; [by apply sort_perm|]. split; [done|]. split.
  - apply mapM_Some_1 in Hp. eapply Forall2_impl; [exact Hp|].
    intros cam page. apply writePage_inv.
  - split; [|done]. rewrite <- Hm. unfold brandOrder. cbn [mapM].
    rewrite <- !(brandSection_group cameras brands) by (done || set_solver).
    done.
Qed.

End Build.

(** ** Related cameras *)

Lemma filterM_filter {A} (p : A → option bool) (q : A → bool) l :
  (∀ x, x ∈ l → p x = Some (q x)) → filterM p l = Some (List.filter q l).
Proof.
  induction l as [|x l IH]; intros H; simpl; [done|].
  rewrite (H x) by left. cbn [mbind option_bind].
  rewrite IH by (intros; apply H; by right). done.
Qed.

Lemma filter_filter {A} (p q : A → bool) l :
  List.filter q (List.filter p l) = List.filter (λ x, p x && q x) l.
Proof.
  induction l as [|x l IH]; simpl; [done|].
  destruct (p x); simpl; [|done]. destruct (q x); by rewrite IH.
Qed.

Lemma group_member cameras brands brands' cam :
  foldM group_step brands cameras = Some brands' → cam ∈ cameras →
  get cam "brand" = Some (opt_get cam "brand")
  ∧ brand_key cam ∉ object_prototype_keys.
Proof.
  revert brands. induction cameras as [|c cameras IH]; intros brands H Hin.
  - by apply elem_of_nil in Hin.
  - cbn [foldM] in H. destruct (group_step brands c) as [m|] eqn:Hm; [|done].
    apply elem_of_cons in Hin as [->|Hin]; [|by eapply IH].
    unfold group_step in Hm. destruct (get c "brand") as [brand|] eqn:Hb; [|done].
    assert (opt_get c "brand" = brand) as E by (destruct c; by simplify_eq/=).
    unfold brand_key. rewrite E. split; [done|].
    cbn [mbind option_bind] in Hm.
    destruct (brands_lookup _ _) as [l|] eqn:Hl; [|done].
    by apply brands_lookup_Some in Hl as [? _].
Qed.

Lemma NoDup_fmap_eq {A B} (f : A → B) (l : list A) x y :
  NoDup (f <$> l) → x ∈ l → y ∈ l → f x = f y → x = y.
Proof.
  induction l as [|a l IH]; intros Hnd Hx Hy Hxy.
  - by apply elem_of_nil in Hx.
  - rewrite fmap_cons in Hnd. apply NoDup_cons in Hnd as [Ha Hnd].
    apply elem_of_cons in Hx as [->|Hx]; apply elem_of_cons in Hy as [->|Hy];
      [done| | |by apply IH].
    + exfalso. apply Ha. rewrite Hxy. by apply list_elem_of_fmap_2.
    + exfalso. apply Ha. rewrite <- Hxy. by apply list_elem_of_fmap_2.
Qed.

Lemma strict_eq_ids c cam :
  is_Some (id_of c) → is_Some (id_of cam) →
  (cid ← get c "id"; id ← get cam "id"; negb <$> strict_eq cid id)
  = Some (negb (same_id c cam)).
Proof.
  unfold same_id, id_of. intros [a Ha] [b Hb].
  destruct (get c "id") as [[]|]; simplify_eq.
  destruct (get cam "id") as [[]|]; simplify_eq.
  cbn. f_equal. f_equal.
  destruct (String.eqb_spec a b) as [->|Hne].
  - by rewrite bool_decide_eq_true_2.
  - rewrite bool_decide_eq_false_2; [done|]. by intros [= ->].
Qed.

(** The siblings of a record, when the identifiers are distinct strings. *)
Lemma siblings_others `{R : Runtime} (files cameras : list value)
    (brands : gmap string (list value)) (cam : value) :
  sort files = Some cameras → group cameras = Some brands →
  Forall (λ c, is_Some (id_of c)) files → NoDup (id_of <$> files) →
  cam ∈ files →
  siblings brands cam = Some (others cameras cam)
  ∧ (∀ c, c ∈ others cameras cam
          ↔ c ∈ files ∧ has_brand (brand_key cam) c = true ∧ c ≠ cam)
  ∧ NoDup (others cameras cam)
  ∧ relatedCameras brands cam
    = match others cameras cam with
      | [] => Some ""
      | sibs =>
          links ← mapM relatedLink sibs;
          ebrand ← escHtml (opt_get cam "brand");
          Some (relatedBlock ebrand links)
      end.
Proof.
  intros Hs Hg Hids Hnd Hcam.
  pose proof (sort_perm _ _ Hs) as Hperm.
  assert (cam ∈ cameras) as Hcam' by (by rewrite Hperm).
  destruct (group_member _ _ _ _ Hg Hcam') as [Hbrand Hown].
  assert (siblings brands cam = Some (others cameras cam)) as Hsib.
  { unfold siblings, others. rewrite Hbrand. cbn [mbind option_bind].
    fold (brand_key cam). rewrite (group_lookup _ _ _ Hg Hown).
    cbn [mbind option_bind]. rewrite <- filter_filter.
    apply filterM_filter. intros c Hc.
    apply list_elem_of_In, List.filter_In in Hc as [Hc%list_elem_of_In _].
    rewrite Forall_forall in Hids.
    apply strict_eq_ids; apply Hids; [by rewrite <- Hperm|done]. }
  split; [done|]. split; [|split].
  - intros c. unfold others.
    rewrite list_elem_of_In, List.filter_In, <- list_elem_of_In, Hperm.
    rewrite andb_true_iff, negb_true_iff. unfold same_id.
    rewrite bool_decide_eq_false. split.
    + intros (Hc & Hb & Hne). repeat split; [done..|]. by intros ->.
    + intros (Hc & Hb & Hne). repeat split; [done..|].
      intros Hid. apply Hne. by apply (NoDup_fmap_eq id_of files).
  - unfold others. apply NoDup_ListNoDup, List.NoDup_filter, NoDup_ListNoDup.
    rewrite Hperm. by eapply NoDup_fmap_1.
  - unfold relatedCameras. rewrite Hsib. cbn [mbind option_bind].
    destruct (others cameras cam) as [|c l]; [done|]. cbn [List.length Nat.eqb].
    destruct (mapM relatedLink (c :: l)); [|done]. cbn [mbind option_bind].
    by rewrite Hbrand.
Qed.


(** ** Records of the data model are rendered without an error *)

Example valid_examples :
  forallb valid_record [rollei37; rollei54; mamiya; ricoh; yashica] = true.
Proof. vm_compute. reflexivity. Qed.

Lemma escHtml_text v : text v = true → ∃ s, escHtml v = Some s.
Proof.
  intros H. unfold escHtml. destruct (truthy v) eqn:Hv; [|by eexists].
  destruct v; cbn [text] in H; rewrite ?Hv in H; try done. by eexists.
Qed.

Lemma mapM_total {A B} (f : A → option B) (p : A → bool) l :
  (∀ x, p x = true → ∃ y, f x = Some y) → forallb p l = true →
  ∃ k, mapM f l = Some k.
Proof.
  intros Hf Hl. apply mapM_is_Some, Forall_forall. intros x Hx.
  rewrite forallb_forall in Hl. destruct (Hf x) as [y Hy].
  - by apply Hl, list_elem_of_In.
  - unfold compose. rewrite Hy. by eexists.
Qed.

Lemma listItem_total f : text f = true → ∃ s, listItem f = Some s.
Proof.
  intros [e He]%escHtml_text. unfold listItem. rewrite He. by eexists.
Qed.

Lemma specRow_total specs rows kl :
  truthy specs = true → ∃ rows', specRow specs rows kl = Some rows'.
Proof.
  intros Hs. unfold specRow. rewrite (opt_get_truthy _ _ Hs).
  cbn [mbind option_bind]. destruct (truthy (opt_get specs kl.1)); [|by eexists].
  rewrite escHtml_string. by eexists.
Qed.

Lemma foldM_total {A B} (f : B → A → option B) l :
  (∀ b a, ∃ b', f b a = Some b') → ∀ b, ∃ b', foldM f b l = Some b'.
Proof.
  intros Hf. induction l as [|a l IH]; intros b; simpl; [by eexists|].
  destruct (Hf b a) as [b' ->]. apply IH.
Qed.

Lemma specsTable_total specs : ∃ s, specsTable specs = Some s.
Proof.
  unfold specsTable. destruct (truthy specs) eqn:Hs; [|by eexists].
  cbn [negb].
  destruct (foldM_total (specRow specs) fields) with (b := "") as [rows ->].
  { intros. by apply specRow_total. }
  by eexists.
Qed.

Lemma formatPrice_total pricing :
  text (opt_get pricing "source") = true → ∃ s, formatPrice pricing = Some s.
Proof.
  intros Hsrc. unfold formatPrice. destruct (truthy pricing) eqn:Hp; [|by eexists].
  cbn [negb]. rewrite (priceRow_loop _ _ _ Hp). cbn [mbind option_bind].
  destruct (String.eqb _ _); [by eexists|].
  unfold priceSource. rewrite (opt_get_truthy _ _ Hp). cbn [mbind option_bind].
  destruct (truthy (opt_get pricing "source")); [|by eexists].
  destruct (escHtml_text _ Hsrc) as [e ->]. by eexists.
Qed.

Lemma offers_total pricing : ∃ o, offers pricing = Some o.
Proof.
  unfold offers. destruct (truthy pricing) eqn:Hp; [|by eexists]. cbn [negb].
  rewrite !(opt_get_truthy pricing _ Hp). cbn [mbind option_bind].
  destruct (truthy (opt_get pricing "average")) eqn:Ha; [|by eexists].
  cbn [negb]. rewrite !(opt_get_truthy _ _ Ha). by eexists.
Qed.

Lemma no_entries_list p v :
  list_of p v = true →
  no_entries v = Some true
  ∨ ∃ l, v = VArr l ∧ forallb p l = true ∧ no_entries v = Some false.
Proof.
  unfold list_of, no_entries. destruct v as [| |b|n|s|l|l]; try done;
    try (intros ->%negb_true_iff; by left).
  intros Hl. cbn. destruct l as [|x l]; [by left|]. right. by exists (x :: l).
Qed.

Lemma entry_field ks e k :
  entry ks e = true → k ∈ ks →
  ∃ v s, get e k = Some v ∧ escHtml v = Some s.
Proof.
  unfold entry. destruct e as [| | | | | |l]; try done.
  rewrite forallb_forall. intros H Hk.
  destruct (escHtml_text (field l k)) as [s Hs]; [by apply H, list_elem_of_In|].
  by exists (field l k), s.
Qed.

Ltac entry_fields H :=
  repeat match goal with
         | |- context [get ?e ?k] =>
             let v := fresh "v" in
             let s := fresh "s" in
             let Hv := fresh "Hv" in
             let Hs := fresh "Hs" in
             destruct (entry_field _ e k H) as (v & s & Hv & Hs);
             [ by repeat constructor
             | rewrite Hv; cbn [mbind option_bind]; rewrite Hs;
               cbn [mbind option_bind] ]
         end.

Lemma articleItem_total a :
  entry ["url"; "title"; "source"] a = true → ∃ s, articleItem a = Some s.
Proof. intros H. unfold articleItem. entry_fields H. by eexists. Qed.

Lemma manualItem_total m :
  entry ["url"; "source"] m = true → ∃ s, manualItem m = Some s.
Proof. intros H. unfold manualItem. entry_fields H. by eexists. Qed.

Lemma galleryItem_total g :
  entry ["url"; "label"] g = true → ∃ s, galleryItem g = Some s.
Proof.
  intros H. unfold galleryItem, galleryRel, isGoogle.
  destruct g as [| | | | | |l]; try done. rewrite !get_obj.
  cbn [mbind option_bind].
  assert (text (field l "url") = true) as Hu.
  { cbn in H. by apply andb_prop in H as [? _]. }
  assert (text (field l "label") = true) as Hl.
  { cbn in H. apply andb_prop in H as [_ H]. by apply andb_prop in H as [? _]. }
  destruct (escHtml_text _ Hu) as [eu Heu], (escHtml_text _ Hl) as [el Hel].
  destruct (truthy (field l "url")) eqn:Ht; cbn [negb mbind option_bind].
  - destruct (field l "url"); cbn [text truthy] in Hu, Ht; rewrite ?Ht in Hu;
      try done.
    cbn [mbind option_bind]. rewrite Heu, Hel. by eexists.
  - rewrite Heu, Hel. by eexists.
Qed.

Lemma articlesList_total v :
  list_of (entry ["url"; "title"; "source"]) v = true →
  ∃ s, articlesList v = Some s.
Proof.
  intros [H|(l & -> & Hl & H)]%no_entries_list; unfold articlesList; rewrite H;
    [by eexists|].
  cbn [mbind option_bind as_array].
  destruct (mapM_total articleItem _ l articleItem_total Hl) as [items ->].
  by eexists.
Qed.

Lemma manualsList_total v :
  list_of (entry ["url"; "source"]) v = true → ∃ s, manualsList v = Some s.
Proof.
  intros [H|(l & -> & Hl & H)]%no_entries_list; unfold manualsList; rewrite H;
    [by eexists|].
  cbn [mbind option_bind as_array].
  destruct (mapM_total manualItem _ l manualItem_total Hl) as [items ->].
  by eexists.
Qed.

Lemma galleriesList_total v :
  list_of (entry ["url"; "label"]) v = true → ∃ s, galleriesList v = Some s.
Proof.
  intros [H|(l & -> & Hl & H)]%no_entries_list; unfold galleriesList; rewrite H;
    [by eexists|].
  cbn [mbind option_bind as_array].
  destruct (mapM_total galleryItem _ l galleryItem_total Hl) as [items ->].
  by eexists.
Qed.

Lemma imageAttribution_total attr :
  negb (truthy attr)
  || entry ["author"; "licenseUrl"; "license"; "sourceUrl"] attr = true →
  ∃ s, imageAttribution attr = Some s.
Proof.
  intros H. unfold imageAttribution.
  destruct (truthy attr); [|by eexists]. cbn [negb orb] in H.
  entry_fields H. by eexists.
Qed.

Section Totality.
Context `{R : Runtime}.
Variable l : list (string * value).

Lemma years_total : ∃ s, years (VObj l) = Some s.
Proof. unfold years. rewrite !get_obj. by eexists. Qed.

Lemma taglineClean_total :
  text (field l "tagline") = true → ∃ s, taglineClean (VObj l) = Some s.
Proof.
  intros H. unfold taglineClean, or_else. rewrite get_obj. cbn [mbind option_bind].
  destruct (truthy (field l "tagline")) eqn:Ht; [|by eexists].
  destruct (field l "tagline"); cbn [text truthy] in H, Ht; rewrite ?Ht in H;
    try done.
  by eexists.
Qed.

Lemma metaDesc_total :
  text (field l "tagline") = true → ∃ s, metaDesc (VObj l) = Some s.
Proof.
  intros H. unfold metaDesc.
  destruct years_total as [ys ->], (taglineClean_total H) as [clean ->].
  rewrite get_obj. by eexists.
Qed.

Lemma imgFile_total :
  text (field l "localImage") = true → ∃ v, imgFile (VObj l) = Some v.
Proof.
  intros H. unfold imgFile. rewrite get_obj. cbn [mbind option_bind].
  destruct (truthy (field l "localImage")) eqn:Ht; [|by eexists].
  destruct (field l "localImage"); cbn [text truthy] in H, Ht; rewrite ?Ht in H;
    try done.
  by eexists.
Qed.

Lemma list_items_total v :
  list_of text v = true →
  truthy v = false
  ∨ ∃ items, v = VArr items
             ∧ ∃ positive, (len ← get v "length"; gt_zero len) = Some positive
             ∧ ∃ k, mapM listItem items = Some k.
Proof.
  unfold list_of. destruct v as [| |b|n|s|items|o]; try (by left);
    try (intros ->%negb_true_iff; by left).
  intros H. right. exists items. split; [done|]. cbn. eexists. split; [done|].
  by apply (mapM_total listItem text items listItem_total).
Qed.

Lemma featuresHtml_total :
  list_of text (field l "features") = true → ∃ s, featuresHtml (VObj l) = Some s.
Proof.
  intros [Hf|(items & Hv & positive & Hp & k & Hk)]%list_items_total;
    unfold featuresHtml; rewrite get_obj; cbn [mbind option_bind].
  - rewrite Hf. by eexists.
  - rewrite Hv in Hp |- *. cbn [truthy negb]. cbn in Hp. injection Hp as <-.
    cbn [get String.eqb Ascii.eqb Bool.eqb mbind option_bind gt_zero].
    destruct (0 <? _); cbn [negb as_array mbind option_bind]; [|by eexists].
    rewrite Hk. by eexists.
Qed.

Lemma innovationsHtml_total :
  list_of text (field l "innovations") = true →
  ∃ s, innovationsHtml (VObj l) = Some s.
Proof.
  intros [Hf|(items & Hv & positive & Hp & k & Hk)]%list_items_total;
    unfold innovationsHtml; rewrite get_obj; cbn [mbind option_bind].
  - rewrite Hf. by eexists.
  - rewrite Hv in Hp |- *. cbn [truthy negb]. cbn in Hp. injection Hp as <-.
    cbn [get String.eqb Ascii.eqb Bool.eqb mbind option_bind gt_zero].
    destruct (0 <? _); cbn [negb as_array mbind option_bind]; [|by eexists].
    rewrite Hk. by eexists.
Qed.

(** A fragment of the form [cam.k ? ... escHtml(cam.k) ... : '']. *)
Ltac text_fragment H k :=
  rewrite get_obj; cbn [mbind option_bind];
  destruct (truthy (field l k)); [|by eexists];
  destruct (escHtml_text _ H) as [? ->]; by eexists.

Lemma famousUsersHtml_total :
  text (field l "famousUsers") = true → ∃ s, famousUsersHtml (VObj l) = Some s.
Proof. intros H. unfold famousUsersHtml. text_fragment H "famousUsers". Qed.

Lemma popCultureHtml_total :
  text (field l "popCulture") = true → ∃ s, popCultureHtml (VObj l) = Some s.
Proof. intros H. unfold popCultureHtml. text_fragment H "popCulture". Qed.

Lemma notesHtml_total :
  text (field l "notes") = true → ∃ s, notesHtml (VObj l) = Some s.
Proof. intros H. unfold notesHtml. text_fragment H "notes". Qed.

Lemma taglineHtml_total :
  text (field l "tagline") = true → ∃ s, taglineHtml (VObj l) = Some s.
Proof. intros H. unfold taglineHtml. text_fragment H "tagline". Qed.

Lemma originHtml_total :
  text (field l "madeIn") = true → ∃ s, originHtml (VObj l) = Some s.
Proof. intros H. unfold originHtml. text_fragment H "madeIn". Qed.

Lemma historyHtml_total :
  text (field l "history") = true → ∃ s, historyHtml (VObj l) = Some s.
Proof. intros H. unfold historyHtml. text_fragment H "history". Qed.

Lemma is_string_text v : is_string v = true → text v = true.
Proof. by destruct v. Qed.

Lemma ebayHtml_total :
  text (field l "ebayUrl") = true → is_string (field l "fullName") = true →
  ∃ s, ebayHtml (VObj l) = Some s.
Proof.
  intros H Hn%is_string_text. unfold ebayHtml. rewrite !get_obj.
  cbn [mbind option_bind].
  destruct (truthy (field l "ebayUrl")); [|by eexists].
  destruct (escHtml_text _ H) as [? ->], (escHtml_text _ Hn) as [? ->].
  by eexists.
Qed.

Lemma ogImage_total :
  text (field l "localImage") = true → ∃ s, ogImage (VObj l) = Some s.
Proof.
  intros [v Hv]%imgFile_total. unfold ogImage. rewrite Hv. by eexists.
Qed.

Lemma jsonLd_total :
  text (field l "localImage") = true → ∃ s, jsonLd (VObj l) = Some s.
Proof.
  intros H. unfold jsonLd, jsonLd_data. rewrite !get_obj. cbn [mbind option_bind].
  destruct (offers_total (field l "pricing")) as [o ->].
  destruct (truthy (field l "localImage")) eqn:Ht.
  - destruct (field l "localImage"); cbn [text truthy] in H, Ht; rewrite ?Ht in H;
      try done.
    by eexists.
  - by eexists.
Qed.

Lemma filmText_total :
  list_of (λ _, true) (field l "film") = true → ∃ s, filmText (VObj l) = Some s.
Proof.
  intros H. unfold filmText, or_else. rewrite get_obj. cbn [mbind option_bind].
  destruct (truthy (field l "film")) eqn:Ht.
  - destruct (field l "film"); cbn [list_of truthy] in H, Ht; rewrite ?Ht in H;
      try done.
    cbn [as_array mbind option_bind]. rewrite escHtml_string. by eexists.
  - cbn [as_array mbind option_bind]. rewrite escHtml_string. by eexists.
Qed.

Lemma camMeta_total :
  text (field l "format") = true → text (field l "madeIn") = true →
  list_of (λ _, true) (field l "film") = true →
  ∃ s, camMeta (VObj l) = Some s.
Proof.
  intros Hf Hm Hfilm. unfold camMeta.
  destruct years_total as [ys ->]. rewrite get_obj. cbn [mbind option_bind].
  destruct (escHtml_text _ Hf) as [? ->], (filmText_total Hfilm) as [? ->],
    (originHtml_total Hm) as [? ->].
  by eexists.
Qed.

Lemma imageHtml_total :
  text (field l "localImage") = true → is_string (field l "fullName") = true →
  negb (truthy (field l "imageAttribution"))
  || entry ["author"; "licenseUrl"; "license"; "sourceUrl"]
       (field l "imageAttribution") = true →
  ∃ s, imageHtml (VObj l) = Some s.
Proof.
  intros [v Hv]%imgFile_total Hn%is_string_text Ha. unfold imageHtml.
  rewrite Hv, !get_obj. cbn [mbind option_bind].
  destruct (truthy v); [|by eexists].
  destruct (escHtml_text _ Hn) as [? ->], (imageAttribution_total _ Ha) as [? ->].
  by eexists.
Qed.

Lemma card_total :
  text (field l "localImage") = true → is_string (field l "fullName") = true →
  ∃ s, card (VObj l) = Some s.
Proof.
  intros [v Hv]%imgFile_total Hn%is_string_text. unfold card.
  rewrite Hv. destruct years_total as [ys ->]. rewrite !get_obj.
  cbn [mbind option_bind].
  destruct (escHtml_text _ Hn) as [e He].
  destruct (truthy (opt_get (field l "pricing") "average")) eqn:Ha.
  - rewrite !(opt_get_truthy _ _ Ha). cbn [mbind option_bind]. rewrite He.
    by eexists.
  - cbn [mbind option_bind]. rewrite He. by eexists.
Qed.

End Totality.

(** What [valid_record] says of each field. *)
Lemma valid_record_fields c :
  valid_record c = true →
  ∃ l, c = VObj l
    ∧ is_string (field l "id") = true
    ∧ is_string (field l "brand") = true
    ∧ (brand_key c ∉ object_prototype_keys)
    ∧ is_string (field l "fullName") = true
    ∧ is_number (field l "yearStart") = true
    ∧ (∀ k, k ∈ [ "tagline"; "format"; "madeIn"; "localImage"; "history";
                  "famousUsers"; "popCulture"; "notes"; "ebayUrl" ] →
            text (field l k) = true)
    ∧ list_of (λ _, true) (field l "film") = true
    ∧ list_of text (field l "features") = true
    ∧ list_of text (field l "innovations") = true
    ∧ text (opt_get (field l "pricing") "source") = true
    ∧ list_of (entry ["url"; "title"; "source"]) (field l "articles") = true
    ∧ list_of (entry ["url"; "source"]) (field l "manuals") = true
    ∧ list_of (entry ["url"; "label"]) (field l "galleries") = true
    ∧ (negb (truthy (field l "imageAttribution"))
       || entry ["author"; "licenseUrl"; "license"; "sourceUrl"]
            (field l "imageAttribution")) = true.
Proof.
  destruct c as [| | | | | |l]; try done. unfold valid_record. intros H.
  repeat (apply andb_prop in H as [H ?]).
  exists l. repeat split; try done.
  - match goal with
    | Hp : negb (bool_decide _) = true |- _ =>
        by apply negb_true_iff, bool_decide_eq_false in Hp
    end.
  - intros k Hk.
    match goal with
    | Hf : forallb _ _ = true |- _ =>
        rewrite forallb_forall in Hf; by apply Hf, list_elem_of_In
    end.
Qed.

Lemma valid_id c : valid_record c = true → is_Some (id_of c).
Proof.
  intros (l & -> & Hid & _)%valid_record_fields. unfold id_of. rewrite get_obj.
  by destruct (field l "id").
Qed.

Lemma valid_keyed c : valid_record c = true → keyed c = true.
Proof.
  intros (l & -> & _ & Hb & _ & _ & Hy & _)%valid_record_fields.
  unfold keyed, brand_of, year_of. rewrite !get_obj.
  by destruct (field l "brand"), (field l "yearStart").
Qed.

Section BuildTotal.
Context `{R : Runtime}.

Lemma insert_total x l :
  keyed x = true → Forall (λ c, keyed c = true) l → ∃ r, insert x l = Some r.
Proof.
  intros Hx Hl. induction l as [|y l IH]; simpl; [by eexists|].
  apply Forall_cons in Hl as [Hy Hl].
  destruct (keyed_inv _ Hx) as (bx & yx & Hbx & Hyx).
  destruct (keyed_inv _ Hy) as (by' & yy & Hby & Hyy).
  rewrite (compareFn_keys _ _ _ _ _ _ Hbx Hyx Hby Hyy). cbn [mbind option_bind].
  destruct (_ <=? 0); [by eexists|].
  destruct (IH Hl) as [r ->]. by eexists.
Qed.

Lemma sort_total l :
  Forall (λ c, keyed c = true) l → ∃ s, sort l = Some s.
Proof.
  induction l as [|x l IH]; intros Hl; simpl; [by eexists|].
  apply Forall_cons in Hl as [Hx Hl]. destruct (IH Hl) as [s Hs].
  rewrite Hs. cbn [mbind option_bind]. apply insert_total; [done|].
  by rewrite (sort_perm _ _ Hs).
Qed.

Lemma group_total cameras brands :
  Forall (λ c, valid_record c = true) cameras →
  ∃ brands', foldM group_step brands cameras = Some brands'.
Proof.
  intros H. revert brands. induction H as [|c cameras Hc _ IH]; intros brands.
  - by eexists.
  - destruct (valid_record_fields _ Hc) as (l & -> & _ & _ & Hown & _).
    assert (∃ m, group_step brands (VObj l) = Some m) as [m Hm].
    { unfold group_step. rewrite get_obj. cbn [mbind option_bind].
      rewrite (brands_lookup_own _ _ Hown). by eexists. }
    cbn [foldM]. rewrite Hm. apply IH.
Qed.

Lemma relatedLink_total c : valid_record c = true → ∃ s, relatedLink c = Some s.
Proof.
  intros (l & -> & _ & _ & _ & Hn%is_string_text & _)%valid_record_fields.
  unfold relatedLink. rewrite !get_obj. cbn [mbind option_bind].
  destruct (escHtml_text _ Hn) as [e ->]. by eexists.
Qed.

Lemma relatedCameras_total cameras brands c :
  group cameras = Some brands → Forall (λ c, valid_record c = true) cameras →
  c ∈ cameras → ∃ s, relatedCameras brands c = Some s.
Proof.
  intros Hg Hv Hc. rewrite Forall_forall in Hv.
  destruct (group_member _ _ _ _ Hg Hc) as [Hbrand Hown].
  assert (∃ sibs, siblings brands c = Some sibs
                  ∧ ∀ x, x ∈ sibs → valid_record x = true) as (sibs & Hs & Hsv).
  { unfold siblings. rewrite Hbrand. cbn [mbind option_bind].
    fold (brand_key c). rewrite (group_lookup _ _ _ Hg Hown).
    cbn [mbind option_bind]. eexists. split.
    - apply (filterM_filter _ (λ x, negb (same_id x c))). intros x Hx.
      apply list_elem_of_In, List.filter_In in Hx as [Hx%list_elem_of_In _].
      apply strict_eq_ids; apply valid_id; auto.
    - intros x Hx.
      apply list_elem_of_In, List.filter_In in Hx as [Hx _].
      apply List.filter_In in Hx as [Hx%list_elem_of_In _]. auto. }
  unfold relatedCameras. rewrite Hs. cbn [mbind option_bind].
  destruct (_ =? _)%nat; [by eexists|].
  assert (∃ links, mapM relatedLink sibs = Some links) as [links ->].
  { apply mapM_is_Some, Forall_forall. intros x Hx. unfold compose.
    destruct (relatedLink_total x) as [s ->]; [auto|by eexists]. }
  cbn [mbind option_bind]. rewrite Hbrand. cbn [mbind option_bind].
  destruct (valid_record_fields _ (Hv c Hc))
    as (l & -> & _ & Hb%is_string_text & _).
  change (opt_get (VObj l) "brand") with (field l "brand").
  destruct (escHtml_text _ Hb) as [e ->]. by eexists.
Qed.

Lemma cameraPage_total cameras brands c :
  group cameras = Some brands → Forall (λ c, valid_record c = true) cameras →
  c ∈ cameras → ∃ html, cameraPage brands c = Some html.
Proof.
  intros Hg Hv Hc.
  destruct (relatedCameras_total _ _ _ Hg Hv Hc) as [related Hrel].
  rewrite Forall_forall in Hv.
  destruct (valid_record_fields _ (Hv c Hc))
    as (l & -> & Hid & Hb & Hown & Hn & Hy & Ht & Hfilm & Hfeat & Hinn & Hsrc
        & Hart & Hman & Hgal & Hattr).
  unfold cameraPage. rewrite Hrel.
  destruct (metaDesc_total l) as [? ->]; [apply Ht; set_solver|].
  destruct (featuresHtml_total l Hfeat) as [? ->].
  destruct (innovationsHtml_total l Hinn) as [? ->].
  destruct (famousUsersHtml_total l) as [? ->]; [apply Ht; set_solver|].
  destruct (popCultureHtml_total l) as [? ->]; [apply Ht; set_solver|].
  destruct (notesHtml_total l) as [? ->]; [apply Ht; set_solver|].
  destruct (ebayHtml_total l) as [? ->]; [apply Ht; set_solver|done|].
  destruct (ogImage_total l) as [? ->]; [apply Ht; set_solver|].
  destruct (jsonLd_total l) as [? ->]; [apply Ht; set_solver|].
  destruct (taglineHtml_total l) as [? ->]; [apply Ht; set_solver|].
  destruct (camMeta_total l) as [? ->]; [apply Ht; set_solver..|done|].
  destruct (imageHtml_total l) as [? ->]; [apply Ht; set_solver|done..|].
  destruct (historyHtml_total l) as [? ->]; [apply Ht; set_solver|].
  rewrite !get_obj. cbn [mbind option_bind].
  destruct (escHtml_text _ (is_string_text _ Hn)) as [? ->].
  cbn [mbind option_bind]. rewrite escHtml_string. cbn [mbind option_bind].
  destruct (field l "brand") eqn:Hbrand; try done.
  cbn [lower mbind option_bind]. rewrite escHtml_string. cbn [mbind option_bind].
  destruct (specsTable_total (field l "specs")) as [? ->].
  destruct (formatPrice_total _ Hsrc) as [? ->].
  destruct (articlesList_total _ Hart) as [? ->].
  destruct (manualsList_total _ Hman) as [? ->].
  destruct (galleriesList_total _ Hgal) as [? ->].
  by eexists.
Qed.

Lemma brandSection_of_total cameras b :
  Forall (λ c, valid_record c = true) cameras →
  ∃ s, brandSection_of cameras b = Some s.
Proof.
  intros Hv. unfold brandSection_of.
  assert (∃ cards, mapM card (List.filter (has_brand b) cameras) = Some cards)
    as [cards ->]; [|by eexists].
  apply mapM_is_Some, Forall_forall. intros c Hc. unfold compose.
  apply list_elem_of_In, List.filter_In in Hc as [Hc%list_elem_of_In _].
  rewrite Forall_forall in Hv.
  destruct (valid_record_fields _ (Hv c Hc)) as (l & -> & _ & _ & _ & Hn & _ & Ht & _).
  destruct (card_total l) as [s ->]; [apply Ht; set_solver|done|by eexists].
Qed.

(** Every collection of records of the data model is built: the run
    returns its pages and its index. *)
Lemma build_total files :
  Forall (λ c, valid_record c = true) files → ∃ out, build files = Some out.
Proof.
  intros Hv. unfold build.
  destruct (sort_total files) as [cameras Hs].
  { eapply Forall_impl; [exact Hv|]. intros c. apply valid_keyed. }
  rewrite Hs. cbn [mbind option_bind].
  assert (Forall (λ c, valid_record c = true) cameras) as Hv'
    by (by rewrite (sort_perm _ _ Hs)).
  destruct (group_total cameras ∅ Hv') as [brands Hg].
  unfold group at 1. rewrite Hg. cbn [mbind option_bind].
  assert (∃ ps, mapM (writePage brands) cameras = Some ps) as [ps ->].
  { apply mapM_is_Some, Forall_forall. intros c Hc. unfold compose, writePage.
    destruct (cameraPage_total _ _ _ Hg Hv' Hc) as [html ->].
    rewrite Forall_forall in Hv'.
    destruct (valid_record_fields _ (Hv' c Hc)) as (l & -> & _).
    by eexists. }
  cbn [mbind option_bind]. unfold brandSections, brandOrder. cbn [mapM].
  rewrite !(brandSection_group cameras brands) by (done || set_solver).
  repeat match goal with
         | |- context [brandSection_of cameras ?b] =>
             destruct (brandSection_of_total cameras b Hv') as [? ->];
             cbn [mbind option_bind mret option_ret]
         end.
  by eexists.
Qed.

End BuildTotal.

(** ** The meta line and the default film *)

Section MetaLine.
Context `{R : Runtime}.


End MetaLine.


Example default_film_ex :
  camMeta rollei37
  = Some (Q "<div class=`cam-meta`>
      <span class=`cam-years`>1937</span>
      <span class=`cam-format`>6x6 on 120 film</span>
      
    </div>").
Proof. vm_compute. reflexivity. Qed.

(** ** The run as a whole *)



(** A record of a brand outside the fixed order has its page and no card. *)
Example ricoh_page_without_card :
  ∃ out,
    build [ricoh; rollei54; rollei37] = Some out
    ∧ (pages out).*1
      = ["ricohflex-vii.html"; "rolleiflex-automat.html"; "rolleiflex-28c.html"]
    ∧ includes (card_link "ricohflex-vii") (indexPage out) = false
    ∧ includes (card_link "rolleiflex-28c") (indexPage out) = true.
Proof.
  eexists. split; [vm_compute; reflexivity|]. repeat split; vm_compute; reflexivity.
Qed.


(** ** The related block *)



Example related_ex :
  ∃ brands,
    group [mamiya; rollei37; rollei54] = Some brands
    ∧ relatedCameras brands rollei37
      = Some (Q "<div class=`related`><h3>More Rollei TLR Cameras</h3><p><a href=`/cameras/rolleiflex-28c.html`>Rolleiflex 2.8C</a></p></div>")
    ∧ relatedCameras brands mamiya = Some "".
Proof.
  eexists. split; [vm_compute; reflexivity|]. split; vm_compute; reflexivity.
Qed.

(** * Further properties of the code *)

(** ** The specifications table *)

Lemma specRow_step specs acc kl :
  truthy specs = true →
  specRow specs acc kl
  = Some (if truthy (opt_get specs kl.1) then acc +:+ specRowText specs kl else acc).
Proof.
  intros Hs. unfold specRow, specRowText.
  rewrite (opt_get_truthy specs kl.1 Hs). cbn [mbind option_bind].
  destruct (truthy (opt_get specs kl.1)) eqn:E; [|done].
  rewrite escHtml_string. done.
Qed.

Lemma specRow_loop specs l acc :
  truthy specs = true →
  foldM (specRow specs) acc l
  = Some (acc +:+ String.concat ""
            (List.map (specRowText specs)
               (List.filter (λ kl, truthy (opt_get specs kl.1)) l))).
Proof.
  intros Hs. revert acc. induction l as [|kl l IH]; intros acc.
  - simpl. by rewrite append_empty_r.
  - cbn [foldM List.filter]. rewrite (specRow_step _ _ _ Hs).
    cbn [mbind option_bind]. rewrite IH.
    destruct (truthy (opt_get specs kl.1)); [|done].
    cbn [List.map]. by rewrite concat_empty_cons, append_assoc.
Qed.

Lemma assoc_perm k (l1 l2 : list (string * value)) :
  l1 ≡ₚ l2 → NoDup l1.*1 → assoc k l1 = assoc k l2.
Proof.
  induction 1 as [|[k0 v0] l1 l2 Hp IH|[k0 v0] [k1 v1] l|l1 l2 l3 H12 IH12 H23 IH23];
    intros Hnd.
  - done.
  - simpl. rewrite fmap_cons in Hnd. apply NoDup_cons in Hnd as [_ Hnd].
    by rewrite IH.
  - simpl. rewrite !fmap_cons in Hnd. apply NoDup_cons in Hnd as [Hne _].
    destruct (String.eqb_spec k k0) as [->|]; [|done].
    destruct (String.eqb_spec k0 k1) as [->|]; [|done].
    exfalso. apply Hne. simpl. left.
  - rewrite IH12 by done. apply IH23. by rewrite <- H12.
Qed.

(** X1.  [specsTable] returns the empty string for an absent value and
    otherwise a table with one row for each field of the fixed list that
    has a truthy value, in the order of that list, the value converted to
    a string and escaped.  The order of the members of the record does not
    matter.  A value without any of the fields gives a table without rows,
    not the empty string. *)
Theorem specs_rows (specs : value) :
  specsTable specs
  = Some (if truthy specs then specsBlock (String.concat "" (specRows specs))
          else "")
  ∧ (∀ l1 l2, l1 ≡ₚ l2 → NoDup l1.*1 →
       specsTable (VObj l1) = specsTable (VObj l2))
  ∧ (truthy specs = true →
     (∀ kl, kl ∈ fields → truthy (opt_get specs kl.1) = false) →
     specsTable specs = Some (specsBlock "")).
Proof.
  assert (specsTable specs
          = Some (if truthy specs
                  then specsBlock (String.concat "" (specRows specs)) else ""))
    as Hrows.
  { unfold specsTable. destruct (truthy specs) eqn:Hs; [|done].
    cbn [negb]. rewrite (specRow_loop _ _ _ Hs). done. }
  split; [done|]. split.
  - intros l1 l2 Hp Hnd. apply specsTable_ext. intros k. left.
    by rewrite (assoc_perm k l1 l2).
  - intros Hs Hnone. rewrite Hrows, Hs. unfold specRows.
    replace (List.filter _ fields) with (@nil (string * string)); [done|].
    symmetry. induction fields as [|kl l IH]; [done|]. cbn [List.filter].
    rewrite Hnone by left. apply IH. intros. apply Hnone. by right.
Qed.

Lemma specs_rows_witness :
  specsTable (VObj [("weight", VNum 950); ("shutter", VStr "Compur")])
  = specsTable (VObj [("shutter", VStr "Compur"); ("weight", VNum 950)])
  ∧ specsTable (VObj [("lens", VStr "Tessar")]) = Some (specsBlock "").
Proof.
  split.
  - apply (specs_rows VUndef).
    + apply Permutation_swap.
    + apply (bool_decide_unpack _). vm_compute. exact I.
  - apply (specs_rows (VObj [("lens", VStr "Tessar")])); [reflexivity|].
    intros kl Hkl. unfold fields in Hkl.
    repeat (apply elem_of_cons in Hkl as [->|Hkl]; [reflexivity|]).
    by apply elem_of_nil in Hkl.
Defined.

Example specsTable_ex :
  specsTable (VObj [("weight", VNum 950); ("shutter", VStr "Compur <1s>")])
  = Some (specsBlock
      "<tr><td>Shutter</td><td>Compur &lt;1s&gt;</td></tr><tr><td>Weight</td><td>950</td></tr>").
Proof. vm_compute. reflexivity. Qed.

(** ** Escaping a text twice *)

Lemma length_append (a b : string) :
  String.length (a +:+ b) = (String.length a + String.length b)%nat.
Proof. induction a as [|x a IH]; simpl; [done|by rewrite IH]. Qed.

Lemma escape_char_plain a : special a = false → escape_char a = String a "".
Proof.
  unfold special, escape_char.
  destruct (Ascii.eqb a "&"), (Ascii.eqb a "<"), (Ascii.eqb a ">"),
    (Ascii.eqb a dquote); done.
Qed.

Lemma escape_char_special a :
  special a = true → ∃ r, escape_char a = String "&" r ∧ r ≠ "".
Proof.
  unfold special, escape_char.
  destruct (Ascii.eqb a "&"); [by eexists|].
  destruct (Ascii.eqb a "<"); [by eexists|].
  destruct (Ascii.eqb a ">"); [by eexists|].
  destruct (Ascii.eqb a dquote); [by eexists|done].
Qed.

Lemma escape_chars_plain s : has_special s = false → escape_chars s = s.
Proof.
  induction s as [|a s IH]; [done|]. cbn [has_special escape_chars].
  intros [Ha Hs]%orb_false_iff. by rewrite (escape_char_plain _ Ha), IH.
Qed.

Lemma escape_chars_length s :
  (String.length s ≤ String.length (escape_chars s))%nat
  ∧ (has_special s = true →
     (String.length s < String.length (escape_chars s))%nat).
Proof.
  induction s as [|a s [IH1 IH2]]; [done|].
  cbn [has_special escape_chars]. rewrite length_append.
  destruct (special a) eqn:Ha.
  - destruct (escape_char_special _ Ha) as (r & -> & Hr).
    destruct r; [done|]. simpl. split; [lia|]. intros _. lia.
  - rewrite (escape_char_plain _ Ha). simpl. split; [lia|].
    intros Hs. specialize (IH2 Hs). lia.
Qed.

Lemma has_special_escape_chars s :
  has_special s = true → has_special (escape_chars s) = true.
Proof.
  induction s as [|a s IH]; [done|]. cbn [has_special escape_chars].
  destruct (special a) eqn:Ha.
  - destruct (escape_char_special _ Ha) as (r & -> & _). done.
  - rewrite (escape_char_plain _ Ha). simpl. by rewrite Ha.
Qed.

(** X2.  [escHtml] is not idempotent: escaping a text a second time changes
    it again, unless the text holds none of the four characters, in which
    case [escHtml] returns it as it is. *)
Theorem escape_twice (s : string) :
  (escape (escape s) = escape s ↔ has_special s = false)
  ∧ (has_special s = false → escHtml (VStr s) = Some s).
Proof.
  rewrite escHtml_string, !escape_one_pass. split; [split|].
  - intros H. destruct (has_special s) eqn:Hs; [|done]. exfalso.
    apply has_special_escape_chars in Hs.
    apply (escape_chars_length (escape_chars s)) in Hs. rewrite H in Hs. lia.
  - intros Hs. by rewrite !(escape_chars_plain _ Hs).
  - intros Hs. by rewrite (escape_chars_plain _ Hs).
Qed.

Lemma escape_twice_witness :
  has_special "Rolleiflex 2.8F" = false
  ∧ escape (escape "Rolleiflex 2.8F") = escape "Rolleiflex 2.8F"
  ∧ escHtml (VStr "Rolleiflex 2.8F") = Some "Rolleiflex 2.8F".
Proof.
  split; [reflexivity|]. split.
  - apply (proj1 (escape_twice "Rolleiflex 2.8F")). reflexivity.
  - apply (proj2 (escape_twice "Rolleiflex 2.8F")). reflexivity.
Defined.

Example escape_twice_ex :
  escape "R&D" = "R&amp;D" ∧ escape (escape "R&D") = "R&amp;amp;D".
Proof. split; vm_compute; reflexivity. Qed.

(** ** The tagline in the description of a page *)

Lemma all_whitespace_stop (x y : string) :
  all_whitespace (x +:+ String "." y) = false.
Proof.
  assert (∀ n x, (String.length x ≤ n)%nat →
                 all_whitespace (x +:+ String "." y) = false) as Hfuel;
    [|by apply (Hfuel (String.length x))].
  clear x. intros n. induction n as [|n IH]; intros x Hx.
  { destruct x; [|simpl in Hx; lia]. destruct y as [|b [|c y]]; reflexivity. }
  destruct x as [|a x]; [destruct y as [|b [|c y]]; reflexivity|].
  simpl in Hx. apply not_true_is_false. intros H.
  cbn [append all_whitespace] in H.
  destruct (bool_decide _) in H.
  { rewrite IH in H by lia. done. }
  destruct x as [|b x]; cbn [append] in H.
  { change (nat_of_ascii ".") with 46%nat in H. cbn [Nat.eqb] in H.
    rewrite andb_false_r in H. destruct y as [|c s3]; [done|].
    repeat (rewrite ?andb_false_r in H; cbn [andb orb] in H). done. }
  simpl in Hx.
  destruct (_ && _) in H.
  { rewrite IH in H by lia. done. }
  destruct x as [|c x]; cbn [append] in H.
  { change (nat_of_ascii ".") with 46%nat in H.
    change (bool_decide (46%nat ∈ [168; 169; 175]%nat)) with false in H.
    cbn [Nat.eqb Nat.leb] in H.
    repeat (rewrite ?andb_false_r in H; cbn [andb orb] in H). done. }
  simpl in Hx.
  match type of H with (if ?c then _ else _) = _ => destruct c end; [|done].
  rewrite IH in H by lia. done.
Qed.

Lemma strip_final_stop_stop (t ws : string) :
  all_whitespace ws = true → strip_final_stop (t +:+ String "." ws) = t.
Proof.
  intros Hws. induction t as [|a t IH]; cbn [append strip_final_stop].
  - by rewrite Hws.
  - by rewrite all_whitespace_stop, andb_false_r, IH.
Qed.

Lemma strip_final_stop_cases (s : string) :
  strip_final_stop s = s
  ∨ ∃ ws, all_whitespace ws = true ∧ s = strip_final_stop s +:+ String "." ws.
Proof.
  induction s as [|a s IH]; [by left|]. cbn [strip_final_stop].
  destruct (Ascii.eqb_spec a ".") as [->|Hne]; cbn [andb].
  - destruct (all_whitespace s) eqn:Hws.
    + right. by exists s.
    + destruct IH as [->|(ws & Hw & Hs)]; [by left|].
      right. exists ws. split; [done|]. cbn [append]. by rewrite <- Hs.
  - destruct IH as [->|(ws & Hw & Hs)]; [by left|].
    right. exists ws. split; [done|]. cbn [append]. by rewrite <- Hs.
Qed.

(** X3.  The description of a page ends its tagline with one full stop:
    [taglineClean] removes a full stop that ends the tagline, with the white
    space after it, and leaves any other tagline as it is.  A record whose
    tagline is written with its final stop and the same record with the
    tagline written without it get the same description. *)
Theorem tagline_final_stop (l1 l2 : list (string * value)) (t ws : string) :
  t ≠ "" → all_whitespace ws = true →
  field l1 "tagline" = VStr (t +:+ String "." ws) →
  field l2 "tagline" = VStr t →
  (∀ k, k ≠ "tagline" → field l1 k = field l2 k) →
  taglineClean (VObj l1) = Some t
  ∧ (strip_final_stop t = t →
     taglineClean (VObj l2) = Some t
     ∧ metaDesc (VObj l1) = metaDesc (VObj l2)).
Proof.
  intros Ht Hws H1 H2 Hsame.
  assert (∀ l s, s ≠ "" → field l "tagline" = VStr s →
            taglineClean (VObj l) = Some (strip_final_stop s)) as Hclean.
  { intros l s Hs Hl. unfold taglineClean, or_else. rewrite get_obj, Hl.
    cbn [mbind option_bind truthy]. by destruct s. }
  assert (t +:+ String "." ws ≠ "") as Hne by (by destruct t).
  rewrite (Hclean l1 _ Hne H1), strip_final_stop_stop by done.
  split; [done|]. intros Hplain.
  rewrite (Hclean l2 _ Ht H2), Hplain. split; [done|].
  unfold metaDesc, years.
  rewrite (Hclean l1 _ Hne H1), (Hclean l2 _ Ht H2), strip_final_stop_stop,
    Hplain, !get_obj by done.
  by rewrite !Hsame.
Qed.

Lemma tagline_final_stop_witness :
  taglineClean (VObj [("fullName", VStr "Rolleiflex"); ("tagline", VStr "The classic. ")])
  = Some "The classic"
  ∧ metaDesc (VObj [("fullName", VStr "Rolleiflex"); ("tagline", VStr "The classic. ")])
    = metaDesc (VObj [("tagline", VStr "The classic"); ("fullName", VStr "Rolleiflex")]).
Proof.
  pose proof (tagline_final_stop
                [("fullName", VStr "Rolleiflex"); ("tagline", VStr "The classic. ")]
                [("tagline", VStr "The classic"); ("fullName", VStr "Rolleiflex")]
                "The classic" " ") as [H1 H2];
    [done|reflexivity|reflexivity|reflexivity| |].
  - intros k Hk. unfold field. simpl.
    destruct (String.eqb_spec k "fullName") as [->|]; [done|].
    by destruct (String.eqb_spec k "tagline").
  - split; [exact H1|]. apply H2. reflexivity.
Defined.

Example strip_final_stop_ex :
  strip_final_stop "f/3.5 lens. Made in Germany." = "f/3.5 lens. Made in Germany"
  ∧ strip_final_stop "No. 1" = "No. 1".
Proof. split; vm_compute; reflexivity. Qed.

(** ** The marker of a gallery link *)

Lemma prefix_append (t s : string) :
  String.prefix t s = true ↔ ∃ post, s = t +:+ post.
Proof.
  revert s. induction t as [|a t IH]; intros s.
  - split; [intros _; by exists s|by destruct s].
  - destruct s as [|b s]; simpl.
    + split; [done|]. by intros [post ?].
    + destruct (ascii_dec a b) as [->|Hne].
      * rewrite IH. split; intros [post H]; exists post; [by rewrite H|].
        by injection H.
      * split; [done|]. intros [post H]. by injection H.
Qed.

Lemma includes_append (t s : string) :
  includes t s = true ↔ ∃ pre post, s = pre +:+ t +:+ post.
Proof.
  induction s as [|a s IH]; cbn [includes]; rewrite orb_true_iff, prefix_append.
  - split.
    + intros [[post H]|?]; [|done]. by exists "", post.
    + intros (pre & post & H). left. destruct pre; [by exists post|done].
  - rewrite IH. split.
    + intros [[post H]|(pre & post & H)]; [by exists "", post|].
      exists (String a pre), post. by rewrite H.
    + intros (pre & post & H). destruct pre as [|b pre].
      * left. by exists post.
      * right. injection H as _ H. by exists pre, post.
Qed.

(** X4.  A gallery link is marked [nofollow] exactly when the text
    [google.com] occurs somewhere in its address, be it in the host, in the
    path or in the query. *)
Theorem marker_of_address (g : value) (u : string) :
  get g "url" = Some (VStr u) →
  (galleryRel g = Some "noopener nofollow"
   ↔ ∃ pre post, u = pre +:+ "google.com" +:+ post)
  ∧ (galleryRel g = Some "noopener"
     ↔ ¬ ∃ pre post, u = pre +:+ "google.com" +:+ post).
Proof.
  intros Hu. rewrite <- includes_append.
  assert (galleryRel g
          = Some (if includes "google.com" u then "noopener nofollow" else "noopener"))
    as ->.
  { unfold galleryRel, isGoogle. rewrite Hu. cbn [mbind option_bind truthy].
    destruct u as [|a u]; done. }
  destruct (includes "google.com" u); split; split; done.
Qed.

Lemma marker_of_address_witness :
  galleryRel (VObj [("url", VStr "https://example.org/?from=google.com")])
  = Some "noopener nofollow".
Proof.
  apply (marker_of_address _ "https://example.org/?from=google.com"); [reflexivity|].
  by exists "https://example.org/?from=", "".
Defined.

(** ** Values that are not texts *)

Lemma escHtml_None v : escHtml v = None ↔ text v = false.
Proof.
  destruct v as [| |b|n|s|l|l]; unfold escHtml; cbn [truthy text negb];
    try done.
  - by destruct b.
  - by destruct (n =? 0).
  - by destruct (negb (String.eqb s "")).
Qed.

Lemma text_false v : text v = false → truthy v = true ∧ escHtml v = None.
Proof.
  intros Hv. split; [|by apply escHtml_None].
  destruct v; cbn [text] in Hv; try done; by apply negb_false_iff.
Qed.

Section TextFields.
Context `{R : Runtime}.

Ltac fragment_fails E Ht He :=
  rewrite !get_obj in E; cbn [mbind option_bind] in E;
  rewrite ?Ht, ?He in E; cbn [mbind option_bind] in E; discriminate E.

(** X5.  [escHtml] accepts a string or a falsy value and throws on
    anything else, a number for instance.  So a record in which one of the
    fields fullName, brand, format, tagline, madeIn, history, famousUsers,
    popCulture, notes, ebayUrl holds a truthy value that is not a string
    gets no page: rendering it throws. *)
Theorem text_expected (brands : gmap string (list value))
    (l : list (string * value)) (k : string) :
  (∀ v, escHtml v = None ↔ text v = false)
  ∧ (k ∈ text_fields → text (field l k) = false →
     cameraPage brands (VObj l) = None).
Proof.
  split; [apply escHtml_None|].
  intros Hk [Ht He]%text_false.
  destruct (cameraPage brands (VObj l)) as [html|] eqn:Hpage; [exfalso|done].
  unfold cameraPage in Hpage. inv_bind Hpage. clear Hpage.
  repeat match goal with
         | E : get (VObj l) _ = Some _ |- _ =>
             rewrite get_obj in E; apply (inj Some) in E; subst
         end.
  unfold text_fields in Hk.
  repeat (apply elem_of_cons in Hk as [->|Hk]); [..|by apply elem_of_nil in Hk].
  - congruence.
  - congruence.
  - match goal with E : camMeta _ = Some _ |- _ => unfold camMeta in E; inv_bind E end.
    repeat match goal with
           | E : get (VObj l) _ = Some _ |- _ =>
               rewrite get_obj in E; apply (inj Some) in E; subst
           end.
    congruence.
  - match goal with E : taglineHtml _ = Some _ |- _ =>
      unfold taglineHtml in E; fragment_fails E Ht He end.
  - match goal with E : camMeta _ = Some _ |- _ => unfold camMeta in E; inv_bind E end.
    match goal with E : originHtml _ = Some _ |- _ =>
      unfold originHtml in E; fragment_fails E Ht He end.
  - match goal with E : historyHtml _ = Some _ |- _ =>
      unfold historyHtml in E; fragment_fails E Ht He end.
  - match goal with E : famousUsersHtml _ = Some _ |- _ =>
      unfold famousUsersHtml in E; fragment_fails E Ht He end.
  - match goal with E : popCultureHtml _ = Some _ |- _ =>
      unfold popCultureHtml in E; fragment_fails E Ht He end.
  - match goal with E : notesHtml _ = Some _ |- _ =>
      unfold notesHtml in E; fragment_fails E Ht He end.
  - match goal with E : ebayHtml _ = Some _ |- _ =>
      unfold ebayHtml in E; fragment_fails E Ht He end.
Qed.

End TextFields.

Lemma text_expected_witness :
  cameraPage (R := sample_runtime) ∅ numeric_format = None.
Proof.
  apply (text_expected (R := sample_runtime) ∅ _ "format").
  - by right; right; left.
  - reflexivity.
Defined.


(** ** The groups of the brands *)

Lemma group_loop_nonempty cameras brands brands' :
  foldM group_step brands cameras = Some brands' →
  (∀ b l, brands !! b = Some l → l ≠ []) →
  ∀ b l, brands' !! b = Some l → l ≠ [].
Proof.
  revert brands. induction cameras as [|cam cameras IH]; intros brands H Hne.
  - by injection H as <-.
  - cbn [foldM] in H. destruct (group_step brands cam) as [m|] eqn:Hm; [|done].
    cbn [mbind option_bind] in H. apply (IH _ H). intros b l.
    unfold group_step in Hm. destruct (get cam "brand") as [brand|]; [|done].
    cbn [mbind option_bind] in Hm.
    destruct (brands_lookup _ _) as [cams|]; [|done]. injection Hm as <-.
    destruct (decide (toString brand = b)) as [->|Hb].
    + rewrite lookup_insert_eq. intros [= <-]. by destruct cams.
    + rewrite lookup_insert_ne by done. apply Hne.
Qed.

Lemma filter_elem {A} (p : A → bool) (l : list A) x :
  x ∈ List.filter p l ↔ x ∈ l ∧ p x = true.
Proof. by rewrite !list_elem_of_In, List.filter_In. Qed.

(** X6.  The grouping is a partition of the collection: the object [brands]
    has one member for each brand that occurs in the collection and no
    other, the list of a brand holds the records of that brand in the order
    of the collection and is never empty, and each record is in the list of
    its own brand and in no other. *)
Theorem group_partition (cameras : list value) (brands : gmap string (list value)) :
  group cameras = Some brands →
  (∀ b, brands !! b = match List.filter (has_brand b) cameras with
                      | [] => None
                      | l => Some l
                      end)
  ∧ (∀ c, c ∈ cameras →
       ∃ l, brands !! brand_key c = Some l ∧ c ∈ l
            ∧ ∀ b l', brands !! b = Some l' → c ∈ l' → b = brand_key c).
Proof.
  intros Hg.
  assert (∀ b, brands !! b = match List.filter (has_brand b) cameras with
                             | [] => None
                             | l => Some l
                             end) as Hlook.
  { intros b. pose proof (group_loop_lookup _ _ _ b Hg) as Hb.
    assert (∀ b l, brands !! b = Some l → l ≠ []) as Hne.
    { apply (group_loop_nonempty _ _ _ Hg). intros b' l'. by rewrite lookup_empty. }
    rewrite lookup_empty in Hb. cbn [default app] in Hb.
    destruct (brands !! b) as [l|] eqn:Hl; cbn [default] in Hb.
    - rewrite <- Hb. destruct l; [|done]. by destruct (Hne b [] Hl).
    - by rewrite <- Hb. }
  split; [done|]. intros c Hc.
  assert (c ∈ List.filter (has_brand (brand_key c)) cameras) as Hin.
  { apply filter_elem. split; [done|]. apply String.eqb_refl. }
  exists (List.filter (has_brand (brand_key c)) cameras). split; [|split; [done|]].
  - rewrite Hlook. destruct (List.filter _ _); [|done]. by apply elem_of_nil in Hin.
  - intros b l'. rewrite Hlook. intros Hl' Hcl'.
    assert (l' = List.filter (has_brand b) cameras) as ->.
    { destruct (List.filter (has_brand b) cameras); [done|]. by injection Hl'. }
    apply filter_elem in Hcl' as [_ Hb]. symmetry. by apply String.eqb_eq.
Qed.

Lemma group_partition_witness :
  ∃ brands,
    group [mamiya; rollei37; rollei54] = Some brands
    ∧ brands !! "Rollei" = Some [rollei37; rollei54]
    ∧ brands !! "Yashica" = None.
Proof.
  destruct (group [mamiya; rollei37; rollei54]) as [brands|] eqn:Hg;
    [|vm_compute in Hg; discriminate Hg].
  exists brands. split; [done|].
  pose proof (group_partition _ _ Hg) as [Hlook _].
  split; rewrite Hlook; reflexivity.
Defined.

(** ** The order of the directory listing *)

Section Ties.
Context `{R : Runtime} `{!RuntimeLaws R}.

Lemma tie_keys a b ba ya bb yb :
  brand_of a = Some ba → year_of a = Some ya →
  brand_of b = Some bb → year_of b = Some yb →
  tie a b = true ↔ localeCompare ba bb = 0 ∧ ya = yb.
Proof.
  intros Ha Hya Hb Hyb. unfold tie.
  rewrite (compareFn_keys _ _ _ _ _ _ Ha Hya Hb Hyb).
  destruct (Z.eqb_spec (localeCompare ba bb) 0) as [E|E].
  - destruct (Z.eq_dec ya yb) as [->|Hne].
    + rewrite Z.sub_diag. done.
    + destruct (ya - yb) eqn:Hd; [lia|..]; split; (done || lia).
  - destruct (localeCompare ba bb); split; (done || lia).
Qed.

Lemma order_antisym a b :
  keyed a = true → keyed b = true → order a b → order b a → tie a b = true.
Proof.
  intros (ba & ya & Ha & Hya)%keyed_inv (bb & yb & Hb & Hyb)%keyed_inv.
  rewrite (tie_keys _ _ _ _ _ _ Ha Hya Hb Hyb). unfold order.
  rewrite (compareFn_keys _ _ _ _ _ _ Ha Hya Hb Hyb),
    (compareFn_keys _ _ _ _ _ _ Hb Hyb Ha Hya).
  intros (x & [= <-] & Hx) (y & [= <-] & Hy).
  pose proof (localeCompare_signs ba bb).
  destruct (Z.eqb_spec (localeCompare ba bb) 0),
    (Z.eqb_spec (localeCompare bb ba) 0); lia.
Qed.

(** Two records that tie with a third one tie with each other. *)
Lemma tie_compare a x y :
  keyed a = true → keyed x = true → keyed y = true →
  tie a x = true → tie a y = true → compareFn x y = Some 0.
Proof.
  intros (ba & ya & Ha & Hya)%keyed_inv (bx & yx & Hx & Hyx)%keyed_inv
    (by' & yy & Hy & Hyy)%keyed_inv.
  rewrite (tie_keys _ _ _ _ _ _ Ha Hya Hx Hyx), (tie_keys _ _ _ _ _ _ Ha Hya Hy Hyy),
    (compareFn_keys _ _ _ _ _ _ Hx Hyx Hy Hyy).
  intros [E1 ->] [E2 ->].
  pose proof (localeCompare_signs ba bx). pose proof (localeCompare_signs ba by').
  pose proof (localeCompare_signs bx by').
  pose proof (localeCompare_trans bx ba by').
  pose proof (localeCompare_trans by' ba bx).
  assert (localeCompare bx by' = 0) as -> by lia.
  simpl. by rewrite Z.sub_diag.
Qed.

Lemma insert_ties a x l r :
  keyed a = true → keyed x = true → Forall (λ c, keyed c = true) l →
  insert x l = Some r →
  List.filter (tie a) r = List.filter (tie a) (x :: l).
Proof.
  intros Ha Hx Hl. revert r. induction Hl as [|y l Hy Hl IH]; intros r; simpl.
  - by intros [= <-].
  - destruct (compareFn x y) as [c|] eqn:Hc; [|done]. cbn [mbind option_bind].
    destruct (Z.leb_spec c 0) as [Hle|Hgt]; [by intros [= <-]|].
    destruct (insert x l) as [r'|]; [|done]. cbn [mbind option_bind].
    intros [= <-]. cbn [List.filter]. rewrite (IH r' eq_refl). cbn [List.filter].
    destruct (tie a x) eqn:Hax, (tie a y) eqn:Hay; try done.
    rewrite (tie_compare a x y) in Hc by done. injection Hc as <-. lia.
Qed.

(** X7.  The sort is stable: the records that have the brand and the first
    year of a record [a] stand in the sorted collection in the order in which
    the directory listing gave them. *)
Theorem sort_stable (files cameras : list value) (a : value) :
  Forall (λ c, keyed c = true) files → keyed a = true →
  sort files = Some cameras →
  List.filter (tie a) cameras = List.filter (tie a) files.
Proof.
  intros Hl Ha. revert cameras.
  induction Hl as [|x l Hx Hl IH]; intros cameras; simpl.
  - by intros [= <-].
  - destruct (sort l) as [s'|] eqn:Hs; [|done]. cbn [mbind option_bind].
    intros Hi.
    rewrite (insert_ties a x s' cameras Ha Hx) by (by rewrite ?(sort_perm _ _ Hs)).
    cbn [List.filter]. by rewrite (IH s' eq_refl).
Qed.

(** X8.  When no two records have both the same brand and the same first
    year, the sorted collection does not depend on the order of the
    directory listing, and neither do the pages and the index. *)
Theorem sort_any_listing (files1 files2 : list value) :
  files1 ≡ₚ files2 →
  Forall (λ c, keyed c = true) files1 →
  (∀ a b, a ∈ files1 → b ∈ files1 → tie a b = true → a = b) →
  sort files1 = sort files2 ∧ build files1 = build files2.
Proof.
  intros Hp Hk Huniq.
  assert (sort files1 = sort files2) as Hs.
  { destruct (sort_sorted files1 Hk) as (s1 & -> & Hp1 & Hs1).
    destruct (sort_sorted files2) as (s2 & -> & Hp2 & Hs2); [by rewrite <- Hp|].
    f_equal. apply (StronglySorted_unique_strong order); [|done..|].
    - intros x y Hx Hy Hxy Hyx. rewrite Forall_forall in Hk.
      rewrite Hp1 in Hx. rewrite Hp2, <- Hp in Hy.
      apply Huniq; [done..|]. apply order_antisym; auto.
    - by rewrite Hp1, Hp2. }
  split; [done|]. unfold build. by rewrite Hs.
Qed.

End Ties.

Lemma sort_stable_witness :
  List.filter (tie (R := sample_runtime) rollei37)
    [mamiya; rollei37; rolleicord37; rollei54]
  = List.filter (tie rollei37) [rollei54; rollei37; mamiya; rolleicord37].
Proof.
  apply (sort_stable (R := sample_runtime)
           [rollei54; rollei37; mamiya; rolleicord37]
           [mamiya; rollei37; rolleicord37; rollei54] rollei37).
  - by repeat constructor.
  - reflexivity.
  - vm_compute. reflexivity.
Defined.

Lemma sort_any_listing_witness :
  sort (R := sample_runtime) [rollei54; mamiya; rollei37]
  = sort [mamiya; rollei37; rollei54]
  ∧ build [rollei54; mamiya; rollei37] = build [mamiya; rollei37; rollei54].
Proof.
  apply (sort_any_listing (R := sample_runtime)).
  - apply (Permutation_cons_append [mamiya; rollei37] rollei54).
  - by repeat constructor.
  - intros a b Ha Hb.
    repeat (apply elem_of_cons in Ha as [->|Ha]);
      try (by apply elem_of_nil in Ha);
      repeat (apply elem_of_cons in Hb as [->|Hb]);
      try (by apply elem_of_nil in Hb); by vm_compute.
Defined.

Example stable_ex :
  sort (R := sample_runtime) [rollei54; rollei37; mamiya; rolleicord37]
  = Some [mamiya; rollei37; rolleicord37; rollei54]
  ∧ sort [rollei54; rolleicord37; mamiya; rollei37]
    = Some [mamiya; rolleicord37; rollei37; rollei54].
Proof. split; vm_compute; reflexivity. Qed.

(** ** Related records *)

(** X9.  Being related is symmetric: in a collection whose identifiers
    are distinct strings, the related block of a record [a] lists a record
    [b] exactly when the related block of [b] lists [a]. *)
Theorem related_symmetric `{R : Runtime} (files cameras : list value)
    (brands : gmap string (list value)) (a b : value) :
  sort files = Some cameras → group cameras = Some brands →
  Forall (λ c, is_Some (id_of c)) files → NoDup (id_of <$> files) →
  a ∈ files → b ∈ files →
  ∃ la lb,
    siblings brands a = Some la ∧ siblings brands b = Some lb
    ∧ (b ∈ la ↔ a ∈ lb).
Proof.
  intros Hs Hg Hids Hnd Ha Hb.
  destruct (siblings_others files cameras brands a Hs Hg Hids Hnd Ha)
    as (Hsa & Hma & _).
  destruct (siblings_others files cameras brands b Hs Hg Hids Hnd Hb)
    as (Hsb & Hmb & _).
  exists (others cameras a), (others cameras b). split; [done|]. split; [done|].
  rewrite Hma, Hmb. unfold has_brand. rewrite !String.eqb_eq.
  split; intros (_ & Hbrand & Hne); (split; [done|]); split; congruence.
Qed.

Lemma related_symmetric_witness :
  ∃ brands la lb,
    group [mamiya; rollei37; rollei54] = Some brands
    ∧ siblings brands rollei37 = Some la ∧ siblings brands rollei54 = Some lb
    ∧ (rollei54 ∈ la ↔ rollei37 ∈ lb).
Proof.
  destruct (group [mamiya; rollei37; rollei54]) as [brands|] eqn:Hg;
    [|vm_compute in Hg; discriminate Hg].
  destruct (related_symmetric (R := sample_runtime) [rollei54; mamiya; rollei37]
              [mamiya; rollei37; rollei54] brands rollei37 rollei54)
    as (la & lb & H); [vm_compute; reflexivity|done| | | | |].
  - repeat constructor; by eexists.
  - apply (bool_decide_unpack _). vm_compute. exact I.
  - by right; right; left.
  - by left.
  - by exists brands, la, lb.
Defined.

(** ** The run and the output directory *)

Section RunProperties.
Context `{R : Runtime} `{H : Host}.

Lemma writePages_written brands cameras ps d :
  mapM (writePage brands) cameras = Some ps →
  writePages brands cameras d = (written ps d, true).
Proof.
  revert ps d. induction cameras as [|cam cameras IH]; intros ps d.
  - by intros [= <-].
  - cbn [mapM writePages].
    destruct (writePage brands cam) as [page|]; [|done]. cbn [mbind option_bind].
    destruct (mapM _ cameras) as [ps'|]; [|done]. cbn [mbind option_bind mret option_ret].
    intros [= <-]. by rewrite (IH ps' _ eq_refl).
Qed.


Lemma written_cons page ps d :
  written (page :: ps) d = written ps (<[outPath page.1 := page.2]> d).
Proof. done. Qed.

Lemma written_app ps1 ps2 d :
  written (ps1 ++ ps2) d = written ps2 (written ps1 d).
Proof. apply foldl_app. Qed.

Lemma written_other ps d p :
  (∀ page, page ∈ ps → outPath page.1 ≠ p) → written ps d !! p = d !! p.
Proof.
  revert d. induction ps as [|page ps IH]; intros d Hp; [done|].
  rewrite written_cons, IH by (intros; apply Hp; by right).
  apply lookup_insert_ne, Hp. by left.
Qed.

Lemma written_last ps1 page ps2 d :
  (∀ q, q ∈ ps2 → outPath q.1 ≠ outPath page.1) →
  written (ps1 ++ page :: ps2) d !! outPath page.1 = Some page.2.
Proof.
  intros Hlater. rewrite written_app, written_cons, written_other by done.
  apply lookup_insert_eq.
Qed.

(** The pages that the loop writes for the first records, when it stops at
    a later one or runs to its end. *)
Lemma writePages_cases brands cameras d :
  ∃ done ps,
    mapM (writePage brands) done = Some ps
    ∧ (writePages brands cameras d).1 = written ps d
    ∧ ∃ rest, cameras = (done ++ rest)%list.
Proof.
  revert d. induction cameras as [|cam cameras IH]; intros d.
  - exists [], []. split; [done|]. split; [done|]. by exists [].
  - cbn [writePages]. destruct (writePage brands cam) as [page|] eqn:Hp.
    + destruct (IH (<[outPath page.1:=page.2]> d)) as (done & ps & Hm & Hw & rest & ->).
      exists (cam :: done), (page :: ps). split.
      { cbn [mapM]. rewrite Hp. cbn [mbind option_bind]. by rewrite Hm. }
      split; [done|]. by exists rest.
    + exists [], []. split; [done|]. split; [done|]. by exists (cam :: cameras).
Qed.

Lemma main_ends dir d files cameras brands ps sections :
  load dir = Some files → sort files = Some cameras →
  group cameras = Some brands →
  mapM (writePage brands) cameras = Some ps →
  brandSections brands = Some sections →
  main dir d
  = {| disk := <[outPath "index.html"
                 := indexHtml (Z.of_nat (List.length cameras)) sections]>
                 (written ps d);
       log := Some (summary (List.length cameras)) |}.
Proof.
  intros Hl Hs Hg Hp Hb. unfold main.
  by rewrite Hl, Hs, Hg, (writePages_written _ _ _ _ Hp), Hb.
Qed.

Lemma load_length dir files :
  load dir = Some files →
  List.length files = List.length (List.filter (λ f, endsWith ".json" f.1) dir).
Proof. unfold load. intros Hm. symmetry. by eapply length_mapM. Qed.

(** X10.  On a data directory whose files hold records of the data model
    the run ends: it writes the pages that [build] returns, in the order of
    the sorted collection, then the index, and prints the summary line,
    whose count is the number of files named [*.json]. *)
Theorem run_ends (dir : list (string * option value)) (d : gmap string string)
    (files : list value) :
  load dir = Some files → Forall (λ c, valid_record c = true) files →
  ∃ out,
    build files = Some out
    ∧ main dir d
      = {| disk := <[outPath "index.html" := indexPage out]> (written (pages out) d);
           log := Some (summary
                          (List.length
                             (List.filter (λ f, endsWith ".json" f.1) dir))) |}
    ∧ List.length (pages out)
      = List.length (List.filter (λ f, endsWith ".json" f.1) dir).
Proof.
  intros Hl Hv. destruct (build_total files Hv) as [out Hout]. exists out.
  split; [done|]. unfold build in Hout.
  destruct (sort files) as [cameras|] eqn:Hs; [|done].
  cbn [mbind option_bind] in Hout.
  destruct (group cameras) as [brands|] eqn:Hg; [|done].
  cbn [mbind option_bind] in Hout.
  destruct (mapM _ cameras) as [ps|] eqn:Hp; [|done].
  cbn [mbind option_bind] in Hout.
  destruct (brandSections brands) as [sections|] eqn:Hb; [|done].
  cbn [mbind option_bind] in Hout. injection Hout as <-. cbn [pages indexPage].
  assert (List.length cameras
          = List.length (List.filter (λ f, endsWith ".json" f.1) dir)) as Hn.
  { rewrite <- (load_length _ _ Hl). apply Permutation_length. by apply sort_perm. }
  split.
  - rewrite (main_ends _ _ _ _ _ _ _ Hl Hs Hg Hp Hb). by rewrite Hn.
  - rewrite <- Hn. symmetry. by eapply length_mapM.
Qed.

(** X11.  After a run that ends, the index is at its path, whatever was
    there and whatever the identifiers of the records are.  The page of a
    record is at the path made from its identifier, unless the index or the
    page of a later record of the sorted collection has the same path, in
    which case the later text replaces it. *)
Theorem pages_on_disk (dir : list (string * option value)) (d : gmap string string)
    (files : list value) (out : output) :
  load dir = Some files → build files = Some out →
  disk (main dir d) !! outPath "index.html" = Some (indexPage out)
  ∧ ∀ ps1 page ps2,
      pages out = (ps1 ++ page :: ps2)%list →
      outPath page.1 ≠ outPath "index.html" →
      (∀ q, q ∈ ps2 → outPath q.1 ≠ outPath page.1) →
      disk (main dir d) !! outPath page.1 = Some page.2.
Proof.
  intros Hl Hout. unfold build in Hout.
  destruct (sort files) as [cameras|] eqn:Hs; [|done].
  cbn [mbind option_bind] in Hout.
  destruct (group cameras) as [brands|] eqn:Hg; [|done].
  cbn [mbind option_bind] in Hout.
  destruct (mapM _ cameras) as [ps|] eqn:Hp; [|done].
  cbn [mbind option_bind] in Hout.
  destruct (brandSections brands) as [sections|] eqn:Hb; [|done].
  cbn [mbind option_bind] in Hout. injection Hout as <-. cbn [pages indexPage].
  rewrite (main_ends _ _ _ _ _ _ _ Hl Hs Hg Hp Hb). cbn [disk]. split.
  - apply lookup_insert_eq.
  - intros ps1 page ps2 -> Hindex Hlater.
    rewrite lookup_insert_ne by done. by apply written_last.
Qed.

(** X12.  A run never removes a file, and it changes no file other than
    the index and the pages of the records of the data directory: a page
    left by an earlier run for a record that is gone stays where it is.
    This holds for the runs that end and for those that stop at an error. *)
Theorem run_keeps (dir : list (string * option value)) (d : gmap string string)
    (p : string) :
  p ≠ outPath "index.html" →
  (∀ files c, load dir = Some files → c ∈ files → p ≠ outPath (pageName c)) →
  disk (main dir d) !! p = d !! p.
Proof.
  intros Hindex Hpages. unfold main.
  destruct (load dir) as [files|] eqn:Hl; [|done].
  destruct (sort files) as [cameras|] eqn:Hs; [|done].
  destruct (group cameras) as [brands|]; [|done].
  destruct (writePages_cases brands cameras d) as (done & ps & Hm & Hw & rest & ->).
  assert (written ps d !! p = d !! p) as Hkept.
  { apply written_other. intros page Hpage.
    apply mapM_Some_1 in Hm.
    destruct (list_elem_of_lookup_1 _ _ Hpage) as [i Hi].
    destruct (Forall2_lookup_r _ _ _ _ _ Hm Hi) as (cam & Hcam & Hw').
    apply writePage_inv in Hw' as [-> _]. intros Heq.
    apply (Hpages files cam eq_refl); [|done].
    rewrite <- (sort_perm _ _ Hs). apply elem_of_app. left.
    by eapply list_elem_of_lookup_2. }
  destruct (writePages _ _ _) as [d1 finished]. cbn [fst] in Hw. subst d1.
  destruct finished; [|done].
  destruct (brandSections brands); [|done]. cbn [disk].
  by rewrite lookup_insert_ne.
Qed.


(** X14.  A record whose brand is the name of a member of
    [Object.prototype], such as [constructor], stops the run before anything
    is written. *)
Theorem prototype_brand (dir : list (string * option value))
    (d : gmap string string) (files : list value) (c : value) :
  load dir = Some files → c ∈ files →
  brand_key c ∈ object_prototype_keys →
  main dir d = {| disk := d; log := None |}.
Proof.
  intros Hl Hc Hproto. unfold main. rewrite Hl.
  destruct (sort files) as [cameras|] eqn:Hs; [|done].
  destruct (group cameras) as [brands|] eqn:Hg; [|done].
  destruct (group_member cameras ∅ brands c Hg) as [_ Hown]; [|done].
  by rewrite (sort_perm _ _ Hs).
Qed.

(** X15.  Only the files named [*.json] are read.  One of them that does
    not hold JSON stops the run before anything is written; a file with
    another name has no effect on the run, whatever it holds. *)
Theorem files_read (dir1 dir2 : list (string * option value))
    (name : string) (parsed : option value) (d : gmap string string) :
  (endsWith ".json" name = true → parsed = None →
   main (dir1 ++ (name, parsed) :: dir2) d = {| disk := d; log := None |})
  ∧ (endsWith ".json" name = false →
     main (dir1 ++ (name, parsed) :: dir2) d = main (dir1 ++ dir2) d).
Proof.
  split.
  - intros Hn ->. unfold main.
    assert (load (dir1 ++ (name, None) :: dir2) = None) as ->; [|done].
    unfold load. rewrite List.filter_app. cbn [List.filter fst]. rewrite Hn.
    destruct (mapM _ _) as [l|] eqn:Hm; [|done].
    apply mapM_Some_1, Forall2_app_inv_l in Hm as (l1 & l2 & _ & Hm & _).
    apply Forall2_cons_inv_l in Hm as (y & l' & Hy & _). done.
  - intros Hn. unfold main.
    assert (load (dir1 ++ (name, parsed) :: dir2) = load (dir1 ++ dir2)) as ->; [|done].
    unfold load. rewrite !List.filter_app. cbn [List.filter fst]. by rewrite Hn.
Qed.

End RunProperties.

Lemma run_ends_witness :
  ∃ out,
    build [rollei37; ricoh] = Some out
    ∧ main sample_dir ∅
      = {| disk := <[outPath "index.html" := indexPage out]> (written (pages out) ∅);
           log := Some "Generated 2 camera pages + index in cameras" |}
    ∧ List.length (pages out) = 2%nat.
Proof.
  apply (run_ends (R := sample_runtime) (H := sample_host) sample_dir ∅
           [rollei37; ricoh]); [reflexivity|].
  by repeat constructor.
Defined.

Lemma pages_on_disk_witness :
  ∃ out page,
    build [rollei37] = Some out
    ∧ pages out = [page]
    ∧ disk (main [("rolleiflex-automat.json", Some rollei37)] ∅) !! "cameras/index.html"
      = Some (indexPage out)
    ∧ disk (main [("rolleiflex-automat.json", Some rollei37)] ∅)
        !! "cameras/rolleiflex-automat.html"
      = Some page.2.
Proof.
  destruct (build_total (R := sample_runtime) [rollei37]) as [out Hout];
    [by repeat constructor|].
  destruct (build_inv _ _ Hout) as (cameras & brands & sections & Hs & _ & _ & Hp & _).
  vm_compute in Hs. injection Hs as <-.
  apply Forall2_cons_inv_l in Hp as (page & ps & [Hname _] & Hnil & Hpages).
  apply Forall2_nil_inv_l in Hnil as ->.
  exists out, page. split; [done|]. split; [done|].
  pose proof (pages_on_disk (R := sample_runtime) (H := sample_host)
                [("rolleiflex-automat.json", Some rollei37)] ∅ [rollei37] out
                eq_refl Hout) as [Hindex Hpage].
  split; [exact Hindex|].
  specialize (Hpage [] page [] Hpages). rewrite Hname in Hpage.
  apply Hpage; [done|]. intros q Hq. by apply elem_of_nil in Hq.
Defined.

Lemma run_keeps_witness :
  disk (main sample_dir {[ "cameras/old-model.html" := "old" ]})
    !! "cameras/old-model.html"
  = Some "old".
Proof.
  rewrite (run_keeps (R := sample_runtime) (H := sample_host)); [done|done|].
  intros files c [= <-] Hc.
  apply elem_of_cons in Hc as [->|Hc]; [done|].
  apply elem_of_cons in Hc as [->|Hc]; [done|].
  by apply elem_of_nil in Hc.
Defined.


Lemma prototype_brand_witness :
  main [("odd.json", Some constructor_brand);
        ("rolleiflex-automat.json", Some rollei37)] ∅
  = {| disk := ∅; log := None |}.
Proof.
  apply (prototype_brand (R := sample_runtime) (H := sample_host) _ ∅
           [constructor_brand; rollei37] constructor_brand);
    [reflexivity|by left|by left].
Defined.

Lemma files_read_witness :
  main ([("rolleiflex-automat.json", Some rollei37)]
        ++ ("broken.json", None) :: [("ricohflex-vii.json", Some ricoh)]) ∅
  = {| disk := ∅; log := None |}
  ∧ main ([("rolleiflex-automat.json", Some rollei37)]
          ++ ("README.md", None) :: [("ricohflex-vii.json", Some ricoh)]) ∅
    = main ([("rolleiflex-automat.json", Some rollei37)]
            ++ [("ricohflex-vii.json", Some ricoh)]) ∅.
Proof.
  split.
  - apply (files_read (R := sample_runtime) (H := sample_host)); reflexivity.
  - apply (files_read (R := sample_runtime) (H := sample_host)); reflexivity.
Defined.

Example run_ex :
  dom (disk (main sample_dir ∅))
  = {[ "cameras/index.html"; "cameras/ricohflex-vii.html";
       "cameras/rolleiflex-automat.html" ]}
  ∧ log (main sample_dir ∅) = Some "Generated 2 camera pages + index in cameras"
  ∧ dom (disk (main failing_dir ∅)) = {[ "cameras/rolleiflex-automat.html" ]}
  ∧ log (main failing_dir ∅) = None.
Proof. repeat split; vm_compute; reflexivity. Qed.

(** ** Every record has its page in the output directory *)






(** ** The index is written last *)

Section IndexLast.
Context `{R : Runtime} `{H : Host}.




End IndexLast.

